(** * send_config.py: bulk provisioning of Smart Licensing call-home profiles

    A shallow embedding of [send_config.py].  The script reads a list of
    device addresses, opens an SSH session to each one through scrapli's
    [IOSXEDriver], pushes up to three configuration stages and collects the
    outcome of every device in a [status] dictionary.

    Python values are modelled as follows.
    - [str] is [string]; a character is a code point below 256.
    - A call that may raise returns an [outcome]: [Returns v] or [Raises e].
    - The interpreter state touched by the script (the devices behind the
      transport, the calls made on it, the console, the progress bar) is
      threaded explicitly through a small state-and-exception monad [M].
    - [status["errors"]] is an insertion-ordered dictionary: an association
      list whose keys are pairwise distinct; [status["success"]] is a list. *)

From Stdlib Require Import String Ascii List Bool Arith Lia Permutation.
From Stdlib Require Import DecimalString.
Import ListNotations.
Open Scope string_scope.
Open Scope list_scope.

(** ** Strings *)

Definition nl : string := String "010"%char EmptyString.

(** [str.isspace] on the code points below 256: TAB, LF, VT, FF, CR, the four
    separators FS GS RS US, SPACE, NEL (0x85) and NBSP (0xA0). *)
Definition isspace (c : ascii) : bool :=
  let n := nat_of_ascii c in
  (((9 <=? n) && (n <=? 13)) || ((28 <=? n) && (n <=? 32))
   || (n =? 133) || (n =? 160))%nat.

(** [str.lstrip()], [str.rstrip()] and [str.strip()] without argument. *)
Fixpoint lstrip (s : string) : string :=
  match s with
  | EmptyString => EmptyString
  | String c s' => if isspace c then lstrip s' else s
  end.

Fixpoint rstrip (s : string) : string :=
  match s with
  | EmptyString => EmptyString
  | String c s' =>
      match rstrip s' with
      | EmptyString => if isspace c then EmptyString else String c EmptyString
      | r => String c r
      end
  end.

Definition strip (s : string) : string := rstrip (lstrip s).

(** [all(c.isspace() for c in s)] *)
Fixpoint all_space (s : string) : bool :=
  match s with
  | EmptyString => true
  | String c s' => isspace c && all_space s'
  end.

(** [str(n)] for a non-negative integer. *)
Definition str_of_nat (n : nat) : string :=
  NilEmpty.string_of_uint (Nat.to_uint n).

(** Truthiness of a [str] and of an [Optional[str]]. *)
Definition truthy (s : string) : bool :=
  match s with EmptyString => false | String _ _ => true end.

Definition truthy_opt (o : option string) : bool :=
  match o with None => false | Some s => truthy s end.

(** ** Exceptions and outcomes *)

Inductive exn : Type :=
| ScrapliAuthenticationFailed (msg : string)
| ScrapliPrivilegeError (msg : string)
| AttributeError (msg : string)
| OtherError (class msg : string).  (* any other class, by its name *)

(** [str(e)] *)
Definition str_exn (e : exn) : string :=
  match e with
  | ScrapliAuthenticationFailed m => m
  | ScrapliPrivilegeError m => m
  | AttributeError m => m
  | OtherError _ m => m
  end.

Inductive outcome (A : Type) : Type :=
| Returns (a : A)
| Raises (e : exn).
Arguments Returns {A} a.
Arguments Raises {A} e.

(** ** Settings and config sets (module-level constants) *)

Record Settings : Type := {
  REMOVE_DEFAULT_PROFILE : bool;
  DEFAULT_PROFILE_NAME : string;
  PROFILE_NAME : string;
  SSM_URL : string;
  TOKEN : string;
  DEVICE_LIST : string
}.

(** The values the file ships with. *)
Definition shipped : Settings := {|
  REMOVE_DEFAULT_PROFILE := true;
  DEFAULT_PROFILE_NAME := "CiscoTAC-1";
  PROFILE_NAME := "";
  SSM_URL := "";
  TOKEN := "";
  DEVICE_LIST := ""
|}.

Definition REMOVE_SSM_CONFIG (cfg : Settings) : list string :=
  ["call-home"; ("no profile " ++ DEFAULT_PROFILE_NAME cfg)%string].

Definition SSM_CONFIG (cfg : Settings) : list string :=
  [ "call-home";
    "no http secure server-identity-check";
    ("profile " ++ PROFILE_NAME cfg)%string;
    "reporting smart-licensing-data";
    "destination transport-method http";
    ("destination address http " ++ SSM_URL cfg)%string;
    "destination preferred-msg-format xml";
    "active";
    "exit" ].

Definition LICENSE_REGISTER_COMMAND (cfg : Settings) : string :=
  ("license smart register idtoken " ++ TOKEN cfg)%string.

(** ** The scrapli driver *)

Record TransportOptions : Type := { open_cmd : list string }.

(** The driver object, identified with the keyword arguments it is built
    from (the [device] dictionary).  The keys [auth_secondary] and
    [transport_options] are added to the dictionary after it is created. *)
Record IOSXEDriver : Type := {
  host : string;
  auth_username : string;
  auth_password : string;
  auth_strict_key : bool;
  auth_secondary : option string;
  transport_options : option TransportOptions
}.

(** What [send_configs] and [send_command] return: the attributes [failed]
    and [result] that the script reads. *)
Record Response : Type := { failed : bool; result : string }.

(** The devices behind the driver.  [World] is whatever state the network
    and the devices have; every driver method is a transition on it.
    Every method may raise: [open] (the script names two of its
    exceptions), [send_configs] and [send_command], whose answer otherwise
    carries the pass or fail signal of the stage, and [close], which the
    script calls without a handler. *)
Record Transport : Type := {
  World : Type;
  do_open : IOSXEDriver -> World -> outcome unit * World;
  do_send_configs : IOSXEDriver -> list string -> World -> outcome Response * World;
  do_send_command : IOSXEDriver -> string -> World -> outcome Response * World;
  do_close : IOSXEDriver -> World -> outcome unit * World
}.

(** The driver calls, in the order the script makes them. *)
Inductive call : Type :=
| Open (c : IOSXEDriver)
| Send_configs (c : IOSXEDriver) (configs : list string)
| Send_command (c : IOSXEDriver) (command : string)
| Close (c : IOSXEDriver).

(** ** The console (rich) *)

Record Table : Type := {
  title : string;
  columns : list string;
  rows : list (list string)
}.

Inductive console_item : Type :=
| Line (s : string)
| Rendered (t : Table).

Record Progress : Type := { description : string; total : nat; completed : nat }.

(** ** The status dictionary *)

(** [d[k] = v] on an insertion-ordered dictionary: an existing key keeps its
    place and takes the new value, a new key goes last. *)
Fixpoint dict_set (k v : string) (d : list (string * string)) : list (string * string) :=
  match d with
  | [] => [(k, v)]
  | (k', v') :: d' =>
      if String.eqb k' k then (k, v) :: d' else (k', v') :: dict_set k v d'
  end.

(** [d[k]] *)
Fixpoint dict_get (k : string) (d : list (string * string)) : option string :=
  match d with
  | [] => None
  | (k', v') :: d' => if String.eqb k' k then Some v' else dict_get k d'
  end.

Definition keys (d : list (string * string)) : list string := map fst d.

Record Status : Type := {
  errors : list (string * string);
  success : list string
}.

Definition set_error (ip err : string) (status : Status) : Status :=
  {| errors := dict_set ip err (errors status); success := success status |}.

Definition append_success (ip : string) (status : Status) : Status :=
  {| errors := errors status; success := success status ++ [ip] |}.

(** What the operator types at the prompts of [run] and [printResults]. *)
Record Operator : Type := {
  username : string;
  password_answer : string;
  provide_enable : bool;
  enable_answer : string;
  print_details : bool
}.

(** ** The engine *)

Section Engine.

(** [ipaddress.ip_address] on a [str]: [true] when it returns an address,
    [false] when it raises [ValueError]. *)
Variable ip_address : string -> bool.

(** The devices, the settings, and the file system: [read_lines path] is
    what [open(path, "r")] followed by iteration over the file gives, the
    lines with their line ends, or the error raised. *)
Variable T : Transport.
Variable cfg : Settings.
Variable read_lines : string -> outcome (list string).

Record state : Type := {
  world : World T;
  calls : list call;
  console : list console_item;
  progress : option Progress
}.

Definition M (A : Type) : Type := state -> outcome A * state.

Definition ret {A : Type} (a : A) : M A := fun st => (Returns a, st).

Definition raise {A : Type} (e : exn) : M A := fun st => (Raises e, st).

Definition bind {A B : Type} (m : M A) (k : A -> M B) : M B :=
  fun st =>
    match m st with
    | (Returns a, st') => k a st'
    | (Raises e, st') => (Raises e, st')
    end.

Notation "x <- c1 ;; c2" := (bind c1 (fun x => c2))
  (at level 61, c1 at next level, right associativity).
Notation "c1 ;; c2" := (bind c1 (fun _ => c2))
  (at level 61, right associativity).
Notation "' pat <- c1 ;; c2" :=
  (bind c1 (fun x => match x with pat => c2 end))
  (at level 61, pat pattern, c1 at next level, right associativity).

(** [print] and [progress.console.print] *)
Definition print (s : string) : M unit :=
  fun st =>
    (Returns tt,
     {| world := world st; calls := calls st;
        console := console st ++ [Line s]; progress := progress st |}).

Definition print_table (t : Table) : M unit :=
  fun st =>
    (Returns tt,
     {| world := world st; calls := calls st;
        console := console st ++ [Rendered t]; progress := progress st |}).

(** [progress.add_task] and [progress.advance] *)
Definition add_task (d : string) (n : nat) : M unit :=
  fun st =>
    (Returns tt,
     {| world := world st; calls := calls st; console := console st;
        progress := Some {| description := d; total := n; completed := 0 |} |}).

Definition advance : M unit :=
  fun st =>
    (Returns tt,
     {| world := world st; calls := calls st; console := console st;
        progress :=
          match progress st with
          | Some p => Some {| description := description p; total := total p;
                              completed := S (completed p) |}
          | None => None
          end |}).

(** A driver method: the call is logged and the devices answer. *)
Definition driver {A : Type} (k : call)
    (f : World T -> outcome A * World T) : M A :=
  fun st =>
    let '(r, w) := f (world st) in
    (r, {| world := w; calls := calls st ++ [k];
           console := console st; progress := progress st |}).

Definition conn_open (c : IOSXEDriver) : M unit :=
  driver (Open c) (do_open T c).

(** Methods called on [c], which is [None] or a driver. *)
Definition send_configs (c : option IOSXEDriver) (configs : list string) : M Response :=
  match c with
  | None => raise (AttributeError "'NoneType' object has no attribute 'send_configs'")
  | Some conn => driver (Send_configs conn configs) (do_send_configs T conn configs)
  end.

Definition send_command (c : option IOSXEDriver) (command : string) : M Response :=
  match c with
  | None => raise (AttributeError "'NoneType' object has no attribute 'send_command'")
  | Some conn => driver (Send_command conn command) (do_send_command T conn command)
  end.

Definition close (c : option IOSXEDriver) : M unit :=
  match c with
  | None => raise (AttributeError "'NoneType' object has no attribute 'close'")
  | Some conn => driver (Close conn) (do_close T conn)
  end.

(** *** loadDeviceList *)

(** One turn of the [for line in file] loop. *)
Definition load_line (acc : list string * list string) (line : string)
    : list string * list string :=
  let '(valid_ips, invalid_ips) := acc in
  let line := strip line in
  if String.eqb line "" then (valid_ips, invalid_ips)
  else if ip_address line then (valid_ips ++ [line], invalid_ips)
  else (valid_ips, invalid_ips ++ [line]).

Definition load_lines (file : list string) : list string * list string :=
  fold_left load_line file ([], []).

Definition loadDeviceList : M (list string * list string) :=
  print "[bold]Loading device list..." ;;
  match read_lines (DEVICE_LIST cfg) with
  | Raises e => raise e
  | Returns file =>
      let '(valid_ips, invalid_ips) := load_lines file in
      print ("Devices loaded: " ++ str_of_nat (length valid_ips)
             ++ " valid IP addresses & " ++ str_of_nat (length invalid_ips)
             ++ " invalid.")%string ;;
      ret (valid_ips, invalid_ips)
  end.

(** *** connectSSH *)

Definition device_kwargs (device user password : string)
    (enable_password : option string) : IOSXEDriver :=
  let device :=
    {| host := device; auth_username := user; auth_password := password;
       auth_strict_key := false; auth_secondary := None;
       transport_options := None |} in
  let device :=
    if truthy_opt enable_password
    then {| host := host device; auth_username := auth_username device;
            auth_password := auth_password device;
            auth_strict_key := auth_strict_key device;
            auth_secondary := enable_password;
            transport_options := transport_options device |}
    else device in
  {| host := host device; auth_username := auth_username device;
     auth_password := auth_password device;
     auth_strict_key := auth_strict_key device;
     auth_secondary := auth_secondary device;
     transport_options :=
       Some {| open_cmd :=
                 [ "-o"; "KexAlgorithms=+diffie-hellman-group-exchange-sha1";
                   "-o"; "Ciphers=+aes256-cbc" ] |} |}.

Definition connectSSH (device user password : string)
    (enable_password : option string) : M (option IOSXEDriver * option string) :=
  let conn := device_kwargs device user password enable_password in
  fun st =>
    match conn_open conn st with
    | (Raises (ScrapliAuthenticationFailed m as e), st') =>
        (Returns (None, Some (str_exn e)), st')
    | (Raises (ScrapliPrivilegeError m as e), st') =>
        (Returns (None, Some (str_exn e)), st')
    | (Raises e, st') => (Raises e, st')
    | (Returns _, st') => (Returns (Some conn, None), st')
    end.

(** *** updateConfiguration *)

(** Steps 3 and 4 of the loop body. *)
Definition apply_and_register (c : option IOSXEDriver) (ip : string)
    (status : Status) : M Status :=
  print "Sending new config..." ;;
  res <- send_configs c (SSM_CONFIG cfg) ;;
  if failed res then
    print "[red]Config failed" ;;
    let status := set_error ip (result res) status in
    close c ;;
    advance ;;
    ret status
  else
    print "[green]Configuration applied" ;;
    print "Requesting license registration..." ;;
    res <- send_command c (LICENSE_REGISTER_COMMAND cfg) ;;
    if failed res then
      print "[red]Failed to register license" ;;
      let status := set_error ip (result res) status in
      close c ;;
      advance ;;
      ret status
    else
      print "[green]Request succeeded" ;;
      print "Done!" ;;
      let status := append_success ip status in
      close c ;;
      advance ;;
      ret status.

(** The body of [for ip in iplist]; every [continue] ends the body. *)
Definition process_device (user password : string)
    (enable_password : option string) (ip : string) (status : Status) : M Status :=
  print (nl ++ "[bold]> Working on " ++ ip)%string ;;
  print "Connecting to device..." ;;
  '(c, err) <- connectSSH ip user password enable_password ;;
  if truthy_opt err then
    print "[red]Failed to connect." ;;
    let status := set_error ip (match err with Some m => m | None => "" end) status in
    advance ;;
    ret status
  else
    print "[green]Connected" ;;
    if REMOVE_DEFAULT_PROFILE cfg then
      print ("Removing default call-home profile " ++ DEFAULT_PROFILE_NAME cfg)%string ;;
      res <- send_configs c (REMOVE_SSM_CONFIG cfg) ;;
      if failed res then
        print "[red]Config removal failed" ;;
        let status := set_error ip (result res) status in
        close c ;;
        advance ;;
        ret status
      else
        print "[green]Default profile removed" ;;
        apply_and_register c ip status
    else
      apply_and_register c ip status.

Fixpoint for_each (body : string -> Status -> M Status) (iplist : list string)
    (status : Status) : M Status :=
  match iplist with
  | [] => ret status
  | ip :: rest =>
      status <- body ip status ;;
      for_each body rest status
  end.

Definition updateConfiguration (iplist : list string) (user password : string)
    (enable_password : option string) : M Status :=
  let status := {| errors := []; success := [] |} in
  add_task "Send Config" (length iplist) ;;
  status <- for_each (process_device user password enable_password) iplist status ;;
  ret status.

(** *** printResults *)

Definition report_rows (status : Status) (bad_ips : list string) : list (list string) :=
  map (fun device => [device; "[green]Successful"; ""]) (success status)
  ++ map (fun error => [fst error; "[red]Failed"; snd error]) (errors status)
  ++ map (fun ip => [ip; "[red]Failed"; "Invalid IP address"]) bad_ips.

Definition printResults (status : Status) (bad_ips : list string)
    (details : bool) : M unit :=
  print (nl ++ nl ++ "[green]Script Completed!")%string ;;
  print (str_of_nat (length (success status))
         ++ " devices were configured successfully.")%string ;;
  (if (0 <? length (errors status))%nat
   then print ("[red]" ++ str_of_nat (length (errors status))
               ++ " errors occured.")%string
   else ret tt) ;;
  if details then
    print "" ;;
    print_table {| title := "Configuration Change Report";
                   columns := ["IP Address"; "Status"; "Error"];
                   rows := report_rows status bad_ips |}
  else ret tt.

(** *** run *)

Definition run (op : Operator) : M unit :=
  '(iplist, bad_ips) <- loadDeviceList ;;
  print (nl ++ "[bold]Please provide device credentials:")%string ;;
  let user := username op in
  let password := password_answer op in
  let enable_pw := if provide_enable op then Some (enable_answer op) else None in
  status <- updateConfiguration iplist user password enable_pw ;;
  printResults status bad_ips (print_details op).

(** *** The stage list

    The loop body runs a fixed sequence of stages, the first of them only
    when [REMOVE_DEFAULT_PROFILE] is set.  [stages] names them in the order
    of the body, [stage_call] is the driver call a stage makes and
    [stage_answer] what the devices answer to it. *)

Inductive stage : Type :=
| RemoveDefaultProfile
| ApplyNewProfile
| RegisterLicense.

Definition stages : list stage :=
  (if REMOVE_DEFAULT_PROFILE cfg then [RemoveDefaultProfile] else [])
  ++ [ApplyNewProfile; RegisterLicense].

Definition stage_call (c : IOSXEDriver) (s : stage) : call :=
  match s with
  | RemoveDefaultProfile => Send_configs c (REMOVE_SSM_CONFIG cfg)
  | ApplyNewProfile => Send_configs c (SSM_CONFIG cfg)
  | RegisterLicense => Send_command c (LICENSE_REGISTER_COMMAND cfg)
  end.

Definition stage_answer (c : IOSXEDriver) (s : stage) (w : World T)
    : outcome Response * World T :=
  match s with
  | RemoveDefaultProfile => do_send_configs T c (REMOVE_SSM_CONFIG cfg) w
  | ApplyNewProfile => do_send_configs T c (SSM_CONFIG cfg) w
  | RegisterLicense => do_send_command T c (LICENSE_REGISTER_COMMAND cfg) w
  end.

(** The devices let every stage of [l] pass, and end in the given world. *)
Fixpoint all_pass (c : IOSXEDriver) (l : list stage) (w : World T)
    : option (World T) :=
  match l with
  | [] => Some w
  | s :: l' =>
      match stage_answer c s w with
      | (Returns r, w') => if failed r then None else all_pass c l' w'
      | (Raises _, _) => None
      end
  end.

(** A sequencer in the words of the design: run the stages in order, stop at
    the first one that fails or raises.  It gives the verdict, the stage
    calls made and the world the devices are left in. *)
Inductive verdict : Type :=
| Passed
| Failed (r : Response)
| Raised (e : exn).

Fixpoint sequencer (c : IOSXEDriver) (l : list stage) (w : World T)
    : verdict * list call * World T :=
  match l with
  | [] => (Passed, [], w)
  | s :: l' =>
      match stage_answer c s w with
      | (Raises e, w') => (Raised e, [stage_call c s], w')
      | (Returns r, w') =>
          if failed r then (Failed r, [stage_call c s], w')
          else
            let '(v, ks, w'') := sequencer c l' w' in
            (v, stage_call c s :: ks, w'')
      end
  end.

(** What the body makes of a verdict: a raised stage leaves at once; a
    passed or failed one is followed by [close], whose exception leaves in
    its turn, and only then is the address recorded. *)
Definition settled (v : verdict) (closed : outcome unit) (ip : string)
    (status : Status) : outcome Status :=
  match v with
  | Raised e => Raises e
  | Passed =>
      match closed with
      | Returns _ => Returns (append_success ip status)
      | Raises e => Raises e
      end
  | Failed a =>
      match closed with
      | Returns _ => Returns (set_error ip (result a) status)
      | Raises e => Raises e
      end
  end.

(** The calls a run has added to the log. *)
Definition new_calls (st st' : state) : list call :=
  skipn (length (calls st)) (calls st').

Definition initial (w : World T) : state :=
  {| world := w; calls := []; console := []; progress := None |}.

End Engine.

Arguments world {T} s.
Arguments calls {T} s.
Arguments console {T} s.
Arguments progress {T} s.
Arguments new_calls {T} st st'.

Definition is_close (k : call) : bool :=
  match k with Close _ => true | _ => false end.

Definition is_stage_call (k : call) : bool :=
  match k with Send_configs _ _ | Send_command _ _ => true | _ => false end.

Definition is_open (k : call) : bool :=
  match k with Open _ => true | _ => false end.

(** The non-blank lines of the file, trimmed, in the order of the file. *)
Definition entries (file : list string) : list string :=
  filter truthy (map strip file).

(** ** Reading the [ssh] options of a driver

    [-o Key=+a,b] on the [ssh] command line appends the algorithms [a] and
    [b] to the default set of [Key]. *)

Fixpoint ssh_options (args : list string) : list string :=
  match args with
  | flag :: ((value :: rest) as tl) =>
      if String.eqb flag "-o" then value :: ssh_options rest else ssh_options tl
  | _ => []
  end.

Fixpoint after_prefix (p s : string) : option string :=
  match p, s with
  | EmptyString, _ => Some s
  | String a p', String b s' => if Ascii.eqb a b then after_prefix p' s' else None
  | String _ _, EmptyString => None
  end.

Fixpoint fields (sep : ascii) (s : string) : list string :=
  match s with
  | EmptyString => [EmptyString]
  | String c s' =>
      if Ascii.eqb c sep then EmptyString :: fields sep s'
      else match fields sep s' with
           | f :: fs => String c f :: fs
           | [] => [String c EmptyString]
           end
  end.

Definition appended (key : string) (c : IOSXEDriver) : list string :=
  match transport_options c with
  | None => []
  | Some o =>
      flat_map
        (fun value =>
           match after_prefix (key ++ "=+") value with
           | Some algorithms => fields "," algorithms
           | None => []
           end)
        (ssh_options (open_cmd o))
  end.

(** ** Sample devices and inputs *)

(** A reader of dotted quads, standing in for [ipaddress.ip_address] where
    an example needs to run: four decimal fields of one to three digits,
    none above 255, none with a leading zero. *)
Definition is_digit (c : ascii) : bool :=
  let n := nat_of_ascii c in ((48 <=? n) && (n <=? 57))%nat.

Definition octet (s : string) : bool :=
  let ds := list_ascii_of_string s in
  match ds with
  | [] => false
  | d :: tl =>
      forallb is_digit ds
      && (length ds <=? 3)%nat
      && (fold_left (fun n c => 10 * n + (nat_of_ascii c - 48)) ds 0 <=? 255)%nat
      && (negb (Ascii.eqb d "0") || (length tl =? 0)%nat)
  end.

Definition dotted_quad (s : string) : bool :=
  match fields "." s with
  | [a; b; c; d] => octet a && octet b && octet c && octet d
  | _ => false
  end.

(** Devices that answer from a script.  The world is the number of sessions
    opened so far, so that a script can answer the second session to an
    address differently from the first. *)
Record Script : Type := {
  on_open : nat -> IOSXEDriver -> outcome unit;
  on_configs : nat -> IOSXEDriver -> list string -> outcome Response;
  on_command : nat -> IOSXEDriver -> string -> outcome Response;
  on_close : nat -> IOSXEDriver -> outcome unit
}.

Definition scripted (s : Script) : Transport := {|
  World := nat;
  do_open := fun c n => (on_open s n c, S n);
  do_send_configs := fun c l n => (on_configs s n c l, n);
  do_send_command := fun c x n => (on_command s n c x, n);
  do_close := fun c n => (on_close s n c, n)
|}.

Definition ok : Response := {| failed := false; result := "" |}.

(** Every device accepts everything. *)
Definition healthy : Script := {|
  on_open := fun _ _ => Returns tt;
  on_configs := fun _ _ _ => Returns ok;
  on_command := fun _ _ _ => Returns ok;
  on_close := fun _ _ => Returns tt
|}.

(** [10.0.0.2] refuses the registration. *)
Definition refuses_registration : Script := {|
  on_open := fun _ _ => Returns tt;
  on_configs := fun _ _ _ => Returns ok;
  on_command := fun _ c _ =>
    if String.eqb (host c) "10.0.0.2"
    then Returns {| failed := true; result := "registration failed" |}
    else Returns ok;
  on_close := fun _ _ => Returns tt
|}.

(** The profile change is rejected by every device. *)
Definition rejects_profile : Script := {|
  on_open := fun _ _ => Returns tt;
  on_configs := fun _ _ l =>
    if (length l =? 9)%nat
    then Returns {| failed := true; result := "% Invalid input detected" |}
    else Returns ok;
  on_command := fun _ _ _ => Returns ok;
  on_close := fun _ _ => Returns tt
|}.

(** The session opens and the channel times out on the first batch. *)
Definition times_out_in_stage : Script := {|
  on_open := fun _ _ => Returns tt;
  on_configs := fun _ _ _ =>
    Raises (OtherError "ScrapliTimeout" "timed out sending input to device");
  on_command := fun _ _ _ => Returns ok;
  on_close := fun _ _ => Returns tt
|}.

(** No device can be reached. *)
Definition unreachable : Script := {|
  on_open := fun _ _ =>
    Raises (OtherError "ScrapliConnectionError"
              "encountered EOF reading from transport");
  on_configs := fun _ _ _ => Returns ok;
  on_command := fun _ _ _ => Returns ok;
  on_close := fun _ _ => Returns tt
|}.

(** Every device turns the session down, with the given error. *)
Definition turns_down (e : exn) : Script := {|
  on_open := fun _ _ => Raises e;
  on_configs := fun _ _ _ => Returns ok;
  on_command := fun _ _ _ => Returns ok;
  on_close := fun _ _ => Returns tt
|}.

(** The first session goes through, later ones fail to register. *)
Definition second_visit_fails : Script := {|
  on_open := fun _ _ => Returns tt;
  on_configs := fun _ _ _ => Returns ok;
  on_command := fun n _ _ =>
    if (n =? 1)%nat then Returns ok
    else Returns {| failed := true; result := "already registered" |};
  on_close := fun _ _ => Returns tt
|}.

(** The devices of a script, with a connection that is gone by the time
    the session is closed. *)
Definition gone_at_close (s : Script) : Script := {|
  on_open := on_open s;
  on_configs := on_configs s;
  on_command := on_command s;
  on_close := fun _ _ => Raises (OtherError "OSError" "[Errno 5] Input/output error")
|}.

Definition line (s : string) : string := (s ++ nl)%string.

(** A device list with a malformed entry and a blank line; one with the
    same address twice; and a file system that holds a given list. *)
Definition device_file : list string :=
  [line "10.0.0.1"; line "bad-addr"; nl; line "10.0.0.2"].

Definition twice_listed : list string := [line "10.0.0.1"; line "10.0.0.1"].

Definition on_disk (file : list string) : string -> outcome (list string) :=
  fun _ => Returns file.

Definition empty_status : Status := {| errors := []; success := [] |}.

Definition admin_driver (ip : string) : IOSXEDriver :=
  {| host := ip; auth_username := "admin"; auth_password := "cisco";
     auth_strict_key := false; auth_secondary := None;
     transport_options :=
       Some {| open_cmd :=
                 [ "-o"; "KexAlgorithms=+diffie-hellman-group-exchange-sha1";
                   "-o"; "Ciphers=+aes256-cbc" ] |} |}.

Definition operator : Operator := {|
  username := "admin";
  password_answer := "cisco";
  provide_enable := false;
  enable_answer := "";
  print_details := true
|}.

Definition no_toggle : Settings := {|
  REMOVE_DEFAULT_PROFILE := false;
  DEFAULT_PROFILE_NAME := "CiscoTAC-1";
  PROFILE_NAME := "";
  SSM_URL := "";
  TOKEN := "";
  DEVICE_LIST := ""
|}.

(** ** Reading a run *)

(** The driver a call is made on. *)
Definition call_driver (k : call) : IOSXEDriver :=
  match k with
  | Open c | Send_configs c _ | Send_command c _ | Close c => c
  end.

(** What a run has added to the console. *)
Definition new_console {T : Transport} (st st' : state T) : list console_item :=
  skipn (length (console st)) (console st').

Definition is_table (item : console_item) : bool :=
  match item with Rendered _ => true | Line _ => false end.

(** The enable secret [run] passes on: what the operator typed, if the
    operator agreed to give one. *)
Definition enable_pw (op : Operator) : option string :=
  if provide_enable op then Some (enable_answer op) else None.

(** The progress bar after [n] calls of [progress.advance]. *)
Definition advance_by (n : nat) (p : option Progress) : option Progress :=
  match p with
  | Some p => Some {| description := description p; total := total p;
                      completed := n + completed p |}
  | None => None
  end.

(** The failure rows of the report as [printResults] writes them: one row
    per key of [errors], with the value looked up under that key
    ([errors[error]]); [None] stands for a [KeyError]. *)
Definition failure_rows_by_key (d : list (string * string))
    : list (option (list string)) :=
  map (fun error =>
         match dict_get error d with
         | Some message => Some [error; "[red]Failed"; message]
         | None => None
         end)
      (keys d).

(** ** Statements that the script does not meet as they stand *)

(** A session that was opened is closed exactly once by the time the body
    ends, however the body ends. *)
Definition closed_once_on_every_exit_path : Prop :=
  forall (T : Transport) cfg user password enable_password ip status
         (st : state T) w1,
    do_open T (device_kwargs ip user password enable_password) (world st)
      = (Returns tt, w1) ->
    length (filter is_close
              (new_calls st
                 (snd (process_device T cfg user password enable_password
                         ip status st)))) = 1.

(** The three buckets of a finished run hold as many addresses as the file
    has non-blank lines, and no address is in two of them. *)
Definition one_bucket_per_line : Prop :=
  forall ip_address (T : Transport) cfg user password enable_password file
         (st : state T) status st',
    updateConfiguration T cfg (fst (load_lines ip_address file))
      user password enable_password st = (Returns status, st') ->
    length (success status) + length (errors status)
      + length (snd (load_lines ip_address file)) = length (entries file)
    /\ forall a, In a (success status) -> ~ In a (keys (errors status)).

(** When a stage reports failure, its output is recorded under the address
    and the body returns, so that the loop goes on with the next address. *)
Definition failing_stage_moves_on : Prop :=
  forall (T : Transport) cfg user password enable_password ip status
         (st : state T) w1 k sk wk wk' r,
    do_open T (device_kwargs ip user password enable_password) (world st)
      = (Returns tt, w1) ->
    nth_error (stages cfg) k = Some sk ->
    all_pass T cfg (device_kwargs ip user password enable_password)
      (firstn k (stages cfg)) w1 = Some wk ->
    stage_answer T cfg (device_kwargs ip user password enable_password) sk wk
      = (Returns r, wk') ->
    failed r = true ->
    fst (process_device T cfg user password enable_password ip status st)
    = Returns (set_error ip (result r) status).

(** With a readable device list, no error leaves [run]. *)
Definition only_startup_error_escapes : Prop :=
  forall ip_address (T : Transport) cfg read_lines op (st : state T) file,
    read_lines (DEVICE_LIST cfg) = Returns file ->
    forall e, fst (run ip_address T cfg read_lines op st) <> Raises e.

(** What [connectSSH] returns tells an authentication failure from a
    privilege failure. *)
Definition failure_kinds_told_apart : Prop :=
  forall (T1 T2 : Transport) device user password enable_password
         (st1 : state T1) (st2 : state T2) m1 m2,
    fst (do_open T1 (device_kwargs device user password enable_password)
           (world st1)) = Raises (ScrapliAuthenticationFailed m1) ->
    fst (do_open T2 (device_kwargs device user password enable_password)
           (world st2)) = Raises (ScrapliPrivilegeError m2) ->
    fst (connectSSH T1 device user password enable_password st1)
    <> fst (connectSSH T2 device user password enable_password st2).

(** ** Facts about [strip] *)

Lemma lstrip_all_space (s : string) : all_space s = true -> lstrip s = "".
Proof.
  induction s as [|c s IH]; simpl; [reflexivity|].
  intros H. apply andb_true_iff in H as [Hc Hs]. rewrite Hc. auto.
Qed.

Lemma lstrip_app_space (ws s : string) :
  all_space ws = true -> lstrip (ws ++ s) = lstrip s.
Proof.
  induction ws as [|c ws IH]; simpl; [reflexivity|].
  intros H. apply andb_true_iff in H as [Hc Hs]. rewrite Hc. auto.
Qed.

Lemma rstrip_all_space (s : string) : all_space s = true -> rstrip s = "".
Proof.
  induction s as [|c s IH]; simpl; [reflexivity|].
  intros H. apply andb_true_iff in H as [Hc Hs]. rewrite (IH Hs), Hc. reflexivity.
Qed.

Lemma rstrip_app_space (s ws : string) :
  all_space ws = true -> rstrip (s ++ ws) = rstrip s.
Proof.
  intros H. induction s as [|c s IH]; simpl.
  - now apply rstrip_all_space.
  - now rewrite IH.
Qed.

Lemma rstrip_idem (s : string) : rstrip (rstrip s) = rstrip s.
Proof.
  induction s as [|c s IH]; simpl; [reflexivity|].
  destruct (rstrip s) as [|d r] eqn:E.
  - destruct (isspace c) eqn:Hc; simpl; [reflexivity|]. now rewrite Hc.
  - simpl in *. rewrite IH. reflexivity.
Qed.

(** A string that does not start with a space keeps its first character
    under [rstrip], unless nothing is left. *)
Lemma lstrip_rstrip_fixed (s : string) : lstrip s = s -> lstrip (rstrip s) = rstrip s.
Proof.
  destruct s as [|c s]; simpl; [reflexivity|].
  destruct (isspace c) eqn:Hc.
  - intros H. exfalso.
    assert (L : forall t, String.length (lstrip t) <= String.length t).
    { induction t as [|d t IH]; simpl; [lia|]. destruct (isspace d); simpl; lia. }
    specialize (L s). rewrite H in L. simpl in L. lia.
  - intros _. destruct (rstrip s); simpl; now rewrite Hc.
Qed.

Lemma lstrip_idem (s : string) : lstrip (lstrip s) = lstrip s.
Proof.
  induction s as [|c s IH]; simpl; [reflexivity|].
  destruct (isspace c) eqn:Hc; [assumption|]. simpl. now rewrite Hc.
Qed.

Lemma strip_idem (s : string) : strip (strip s) = strip s.
Proof.
  unfold strip.
  rewrite (lstrip_rstrip_fixed (lstrip s) (lstrip_idem s)).
  apply rstrip_idem.
Qed.

Lemma strip_all_space (s : string) : all_space s = true -> strip s = "".
Proof. intros H. unfold strip. now rewrite lstrip_all_space. Qed.

Lemma strip_empty_all_space (s : string) : strip s = "" -> all_space s = true.
Proof.
  unfold strip. induction s as [|c s IH]; simpl; [reflexivity|].
  destruct (isspace c) eqn:Hc; simpl; [exact IH|].
  destruct (rstrip s); [rewrite Hc|]; discriminate.
Qed.

Lemma strip_surrounded (ws1 a ws2 : string) :
  all_space ws1 = true -> all_space ws2 = true ->
  strip (ws1 ++ a ++ ws2) = strip a.
Proof.
  intros H1 H2. unfold strip. rewrite lstrip_app_space by assumption.
  destruct (all_space a) eqn:Ha.
  - rewrite (lstrip_all_space a Ha).
    rewrite lstrip_all_space; [reflexivity|].
    clear - Ha H2. induction a as [|c a IH]; simpl in *; [assumption|].
    apply andb_true_iff in Ha as [Hc Hs]. rewrite Hc. auto.
  - assert (L : forall t u, all_space t = false -> lstrip (t ++ u) = (lstrip t ++ u)%string).
    { induction t as [|d t IH]; simpl; intros u Ht; [discriminate|].
      destruct (isspace d); simpl in *; auto. }
    rewrite L by assumption. now apply rstrip_app_space.
Qed.

Lemma lstrip_split (s : string) :
  exists ws, all_space ws = true /\ s = (ws ++ lstrip s)%string.
Proof.
  induction s as [|c s (ws & Hws & IH)]; [now exists ""|].
  cbn. destruct (isspace c) eqn:Hc.
  - exists (String c ws). cbn. rewrite Hc, Hws. split; [reflexivity|].
    now rewrite <- IH.
  - now exists "".
Qed.

Lemma rstrip_split (s : string) :
  exists ws, all_space ws = true /\ s = (rstrip s ++ ws)%string.
Proof.
  induction s as [|c s (ws & Hws & IH)]; [now exists ""|].
  cbn. destruct (rstrip s) as [|d r] eqn:E.
  - destruct (isspace c) eqn:Hc.
    + exists (String c ws). cbn. rewrite Hc, Hws. split; [reflexivity|].
      cbn in IH. now rewrite <- IH.
    + exists ws. split; [assumption|]. cbn in *. now rewrite <- IH.
  - exists ws. split; [assumption|]. cbn in *. now rewrite <- IH.
Qed.

Lemma lstrip_head (s : string) c t : lstrip s = String c t -> isspace c = false.
Proof.
  induction s as [|a s IH]; cbn; [discriminate|].
  destruct (isspace a) eqn:Ha; [exact IH|]. now intros [= <- _].
Qed.

Lemma rstrip_head (s : string) c t :
  rstrip s = String c t -> exists t', s = String c t'.
Proof.
  destruct s as [|a s]; cbn; [discriminate|].
  destruct (rstrip s); [destruct (isspace a); [discriminate|]|];
    intros [= <- _]; eauto.
Qed.

Lemma rstrip_last (s : string) : forall t c,
  rstrip s = (t ++ String c "")%string -> isspace c = false.
Proof.
  induction s as [|a s IH]; cbn; intros t c H.
  - destruct t; discriminate H.
  - destruct (rstrip s) as [|d r] eqn:E.
    + destruct (isspace a) eqn:Ha; [destruct t; discriminate H|].
      destruct t as [|x t]; cbn in H.
      * now injection H as <-.
      * injection H as _ H. destruct t; discriminate H.
    + destruct t as [|x t]; cbn in H; [discriminate H|].
      injection H as _ H. exact (IH _ _ H).
Qed.

(** X9: [strip] takes away whitespace only, and only at the two ends: the
    string is its trimmed form between two runs of whitespace, and the
    trimmed form neither starts nor ends with whitespace. *)
Theorem strip_removes_outer_whitespace (s : string) :
  (exists ws1 ws2,
      all_space ws1 = true /\ all_space ws2 = true
      /\ s = (ws1 ++ strip s ++ ws2)%string)
  /\ (forall c t, strip s = String c t -> isspace c = false)
  /\ (forall t c, strip s = (t ++ String c "")%string -> isspace c = false).
Proof.
  unfold strip. split; [|split].
  - destruct (lstrip_split s) as (ws1 & H1 & E1).
    destruct (rstrip_split (lstrip s)) as (ws2 & H2 & E2).
    exists ws1, ws2. repeat split; try assumption.
    now rewrite <- E2.
  - intros c t H. destruct (rstrip_head _ _ _ H) as [t' H'].
    exact (lstrip_head _ _ _ H').
  - intros t c H. exact (rstrip_last _ _ _ H).
Qed.

(** ** The device list *)

Section DeviceList.

Variable ip_address : string -> bool.

Lemma eqb_empty (s : string) : String.eqb s "" = negb (truthy s).
Proof. now destruct s. Qed.

Lemma entries_cons (l : string) (file : list string) :
  entries (l :: file) =
  if truthy (strip l) then strip l :: entries file else entries file.
Proof. reflexivity. Qed.

(** The loop, started from any pair of lists, appends to them the accepted
    and the rejected entries in the order of the file. *)
Lemma load_fold (file : list string) : forall valid_ips invalid_ips,
  fold_left (load_line ip_address) file (valid_ips, invalid_ips) =
  (valid_ips ++ filter ip_address (entries file),
   invalid_ips ++ filter (fun a => negb (ip_address a)) (entries file)).
Proof.
  induction file as [|l file IH]; intros v i; cbn [fold_left].
  - cbn. now rewrite !app_nil_r.
  - rewrite entries_cons. unfold load_line at 2. rewrite eqb_empty.
    destruct (truthy (strip l)); cbn [negb]; [|apply IH].
    cbn [filter]. destruct (ip_address (strip l)); cbn [negb];
      rewrite IH, <- ?app_assoc; reflexivity.
Qed.

Lemma load_lines_filter (file : list string) :
  load_lines ip_address file =
  (filter ip_address (entries file),
   filter (fun a => negb (ip_address a)) (entries file)).
Proof. unfold load_lines. now rewrite load_fold. Qed.

Lemma entries_app (l1 l2 : list string) :
  entries (l1 ++ l2) = entries l1 ++ entries l2.
Proof. unfold entries. now rewrite map_app, filter_app. Qed.

Lemma entries_strip (file : list string) : entries (map strip file) = entries file.
Proof.
  unfold entries. rewrite map_map. f_equal. apply map_ext. apply strip_idem.
Qed.

Lemma count_filter_split (p : string -> bool) (l : list string) (a : string) :
  count_occ string_dec (filter p l) a
  + count_occ string_dec (filter (fun x => negb (p x)) l) a
  = count_occ string_dec l a.
Proof.
  induction l as [|x l IH]; cbn [filter count_occ]; [reflexivity|].
  destruct (p x); cbn [negb count_occ]; destruct (string_dec x a); lia.
Qed.

Lemma length_filter_split (p : string -> bool) (l : list string) :
  length (filter p l) + length (filter (fun x => negb (p x)) l) = length l.
Proof.
  induction l as [|x l IH]; cbn [filter length]; [reflexivity|].
  destruct (p x); cbn [negb length]; lia.
Qed.

(** C6: [loadDeviceList], given a readable file, returns two lists: the
    trimmed non-blank lines that [ip_address] accepts and those it rejects.
    Each keeps the order of the file, no entry is in both, every occurrence
    of an entry is kept (nothing is deduplicated), and a blank line changes
    neither list. *)
Theorem loadDeviceList_splits_in_order
    (T : Transport) (cfg : Settings) (read_lines : string -> outcome (list string))
    (file : list string) (st : state T) :
  read_lines (DEVICE_LIST cfg) = Returns file ->
  let valid_ips := fst (load_lines ip_address file) in
  let invalid_ips := snd (load_lines ip_address file) in
  (exists st',
      loadDeviceList ip_address T cfg read_lines st
      = (Returns (valid_ips, invalid_ips), st'))
  /\ valid_ips = filter ip_address (entries file)
  /\ invalid_ips = filter (fun a => negb (ip_address a)) (entries file)
  /\ (forall a, In a valid_ips -> ~ In a invalid_ips)
  /\ (forall a, count_occ string_dec valid_ips a
                + count_occ string_dec invalid_ips a
                = count_occ string_dec (entries file) a)
  /\ (forall before blank after,
        file = before ++ blank :: after -> strip blank = "" ->
        load_lines ip_address (before ++ after) = load_lines ip_address file).
Proof.
  intros Hread valid_ips invalid_ips. subst valid_ips invalid_ips.
  rewrite load_lines_filter. cbn [fst snd]. repeat split.
  - unfold loadDeviceList, bind, print, ret. cbn. rewrite Hread.
    rewrite load_lines_filter. eexists. reflexivity.
  - intros a Hv Hi. apply filter_In in Hv as [_ Hv]. apply filter_In in Hi as [_ Hi].
    rewrite Hv in Hi. discriminate.
  - intros a. apply count_filter_split.
  - intros before blank after -> Hb. rewrite load_lines_filter.
    rewrite !entries_app, entries_cons, Hb. reflexivity.
Qed.

(** C9: every line is trimmed before it is looked at.  A turn of the loop
    on a line is the turn on the trimmed line; a line of whitespace only is
    passed over as the empty line is; an address that [ip_address] accepts,
    written between whitespace, is appended to the valid list without the
    whitespace. *)
Theorem lines_are_trimmed :
  (forall acc l, load_line ip_address acc l = load_line ip_address acc (strip l))
  /\ (forall file, load_lines ip_address (map strip file) = load_lines ip_address file)
  /\ (forall acc l, all_space l = true ->
        load_line ip_address acc l = load_line ip_address acc ""
        /\ load_line ip_address acc l = acc)
  /\ (forall valid_ips invalid_ips ws1 a ws2,
        all_space ws1 = true -> all_space ws2 = true ->
        strip a = a -> a <> "" -> ip_address a = true ->
        load_line ip_address (valid_ips, invalid_ips) (ws1 ++ a ++ ws2)%string
        = (valid_ips ++ [a], invalid_ips)).
Proof.
  repeat split.
  - intros [v i] l. unfold load_line. now rewrite strip_idem.
  - intros file. now rewrite !load_lines_filter, entries_strip.
  - destruct acc as [v i]. unfold load_line. now rewrite (strip_all_space l H).
  - destruct acc as [v i]. unfold load_line. now rewrite (strip_all_space l H).
  - intros v i ws1 a ws2 H1 H2 Ha Hne Hip. unfold load_line.
    rewrite strip_surrounded, Ha by assumption.
    rewrite eqb_empty. destruct a as [|c a]; [contradiction|]. cbn [truthy negb].
    now rewrite Hip.
Qed.

(** X10: every entry that [loadDeviceList] returns, in either list, is the
    trimmed form of a line of the file, is not empty and carries no
    whitespace at its ends; the first list holds only entries that
    [ip_address] accepts and the second only entries it rejects. *)
Theorem stored_entries_are_trimmed (file : list string) (a : string) :
  In a (fst (load_lines ip_address file)) \/ In a (snd (load_lines ip_address file)) ->
  a <> "" /\ strip a = a
  /\ (exists l, In l file /\ a = strip l)
  /\ (In a (fst (load_lines ip_address file)) <-> ip_address a = true)
  /\ (In a (snd (load_lines ip_address file)) <-> ip_address a = false).
Proof.
  rewrite load_lines_filter. cbn [fst snd]. rewrite !filter_In. intros H.
  assert (He : In a (entries file)) by tauto.
  unfold entries in He. apply filter_In in He as [Hm Ht].
  apply in_map_iff in Hm as (l & <- & Hl).
  assert (He : In (strip l) (entries file)).
  { unfold entries. apply filter_In. split; [now apply in_map|assumption]. }
  split; [intros E; rewrite E in Ht; discriminate Ht|].
  split; [apply strip_idem|]. split; [eauto|].
  destruct (ip_address (strip l)); cbn [negb]; intuition discriminate.
Qed.

(** X11: on a readable file [loadDeviceList] talks to no device and prints
    two lines, the second with the sizes of the two lists it returns; the
    two sizes add up to the number of non-blank lines.  On an unreadable
    file it raises the error of the file system after the first line. *)
Theorem loadDeviceList_reports_its_counts
    (T : Transport) (cfg : Settings) (read_lines : string -> outcome (list string))
    (st : state T) :
  let st' := snd (loadDeviceList ip_address T cfg read_lines st) in
  calls st' = calls st /\ world st' = world st /\ progress st' = progress st
  /\ (forall file, read_lines (DEVICE_LIST cfg) = Returns file ->
        let n := length (fst (load_lines ip_address file)) in
        let m := length (snd (load_lines ip_address file)) in
        n + m = length (entries file)
        /\ new_console st st'
           = [ Line "[bold]Loading device list...";
               Line ("Devices loaded: " ++ str_of_nat n
                     ++ " valid IP addresses & " ++ str_of_nat m
                     ++ " invalid.")%string ])
  /\ (forall e, read_lines (DEVICE_LIST cfg) = Raises e ->
        fst (loadDeviceList ip_address T cfg read_lines st) = Raises e
        /\ new_console st st' = [Line "[bold]Loading device list..."]).
Proof.
  intros st'. subst st'. unfold loadDeviceList, bind, print, ret, raise.
  destruct (read_lines (DEVICE_LIST cfg)) as [file|e] eqn:Hr.
  - destruct (load_lines ip_address file) as [v i] eqn:E.
    cbn [fst snd calls world progress console].
    split; [reflexivity|]. split; [reflexivity|]. split; [reflexivity|].
    split; [|intros e He; discriminate He].
    intros file' [= <-]. rewrite E. cbn [fst snd]. split.
    + pose proof (length_filter_split ip_address (entries file)) as L.
      rewrite load_lines_filter in E. injection E as <- <-. exact L.
    + unfold new_console. cbn [console].
      rewrite <- app_assoc, skipn_app, skipn_all, Nat.sub_diag. reflexivity.
  - cbn [fst snd calls world progress console].
    split; [reflexivity|]. split; [reflexivity|]. split; [reflexivity|].
    split; [intros file Hf; discriminate Hf|].
    intros e' [= <-]. split; [reflexivity|].
    unfold new_console. cbn [console].
    rewrite skipn_app, skipn_all, Nat.sub_diag. reflexivity.
Qed.

End DeviceList.

(** ** Facts about the dictionary *)

Lemma keys_dict_set_new k v d :
  ~ In k (keys d) -> keys (dict_set k v d) = keys d ++ [k].
Proof.
  induction d as [|[k' v'] d IH]; cbn; intros H; [reflexivity|].
  destruct (String.eqb_spec k' k) as [->|Hne]; [tauto|].
  cbn. f_equal. apply IH. tauto.
Qed.

Lemma keys_dict_set_old k v d :
  In k (keys d) -> keys (dict_set k v d) = keys d.
Proof.
  induction d as [|[k' v'] d IH]; cbn; intros H; [tauto|].
  destruct (String.eqb_spec k' k) as [->|Hne]; [reflexivity|].
  cbn. f_equal. apply IH. destruct H; [contradiction|assumption].
Qed.

Lemma dict_get_set k v d : dict_get k (dict_set k v d) = Some v.
Proof.
  induction d as [|[k' v'] d IH]; cbn.
  - now rewrite String.eqb_refl.
  - destruct (String.eqb_spec k' k) as [->|Hne]; cbn.
    + now rewrite String.eqb_refl.
    + destruct (String.eqb_spec k' k); [contradiction|assumption].
Qed.

Lemma dict_get_set_other k k' v d :
  k' <> k -> dict_get k' (dict_set k v d) = dict_get k' d.
Proof.
  intros Hne. induction d as [|[k0 v0] d IH]; cbn.
  - destruct (String.eqb_spec k k'); [congruence|reflexivity].
  - destruct (String.eqb_spec k0 k) as [->|Hk]; cbn.
    + destruct (String.eqb_spec k k'); [congruence|reflexivity].
    + destruct (String.eqb_spec k0 k'); [reflexivity|exact IH].
Qed.

Lemma in_keys_dict_set a k v d :
  In a (keys (dict_set k v d)) <-> a = k \/ In a (keys d).
Proof.
  destruct (in_dec string_dec k (keys d)) as [Hin|Hout].
  - rewrite keys_dict_set_old by assumption. split; [tauto|].
    intros [->|H]; assumption.
  - rewrite keys_dict_set_new by assumption. rewrite in_app_iff. cbn.
    split; [intros [H|[H|[]]]|intros [H|H]]; auto.
Qed.

Lemma length_dict_set k v d : length (dict_set k v d) <= S (length d).
Proof.
  induction d as [|[k0 v0] d IH]; cbn; [lia|].
  destruct (String.eqb k0 k); cbn; lia.
Qed.

Lemma NoDup_keys_dict_set k v d :
  NoDup (keys d) -> NoDup (keys (dict_set k v d)).
Proof.
  intros ND. destruct (in_dec string_dec k (keys d)) as [Hin|Hout].
  - now rewrite keys_dict_set_old.
  - rewrite keys_dict_set_new by assumption.
    apply NoDup_app; [assumption|repeat constructor; intros []|].
    intros a Ha [<-|[]]. contradiction.
Qed.

Lemma dict_get_in k v d :
  NoDup (keys d) -> In (k, v) d -> dict_get k d = Some v.
Proof.
  induction d as [|[k0 v0] d IH]; cbn; intros ND Hin; [contradiction|].
  inversion ND as [|? ? Hk0 ND']; subst.
  destruct Hin as [[= -> ->]|Hin].
  - now rewrite String.eqb_refl.
  - destruct (String.eqb_spec k0 k) as [->|Hne]; [|auto].
    exfalso. apply Hk0. change k with (fst (k, v)). now apply in_map.
Qed.

(** ** The loop body, path by path *)

#[local] Arguments REMOVE_SSM_CONFIG : simpl never.
#[local] Arguments SSM_CONFIG : simpl never.
#[local] Arguments LICENSE_REGISTER_COMMAND : simpl never.
#[local] Arguments device_kwargs : simpl never.
#[local] Arguments String.append : simpl never.

Section Body.

Variable T : Transport.
Variable cfg : Settings.
Variables user password : string.
Variable enable_password : option string.

Let body := process_device T cfg user password enable_password.
Let conn (ip : string) := device_kwargs ip user password enable_password.

Ltac run_body :=
  unfold body, process_device, apply_and_register, connectSSH, conn_open,
    send_configs, send_command, close, driver, bind, print, advance, ret, raise;
  cbn.

Ltac answer H := rewrite H; cbn.

Ltac split_answer H :=
  match goal with
  | |- context [do_send_configs ?T ?c ?l ?w] =>
      let E := fresh "E" in
      destruct (do_send_configs T c l w) as [[?r|?e] ?u] eqn:E;
      try rewrite E in H; cbn in H |- *
  | |- context [do_send_command ?T ?c ?l ?w] =>
      let E := fresh "E" in
      destruct (do_send_command T c l w) as [[?r|?e] ?u] eqn:E;
      try rewrite E in H; cbn in H |- *
  | |- context [failed ?r] =>
      let F := fresh "F" in
      destruct (failed r) eqn:F; try rewrite F in H; cbn in H |- *
  end.

Ltac finish :=
  eexists; split; [reflexivity|];
  cbn;
  repeat split; rewrite <- ?app_assoc; reflexivity.

Ltac split_close :=
  match goal with
  | |- context [do_close ?T ?c ?w] =>
      destruct (do_close T c w) as [[[]|?e] ?u]; cbn
  end.

(** A device that opens: the body does what the sequencer does on [stages],
    calls [close] unless a stage raised, and records the verdict if [close]
    returns. *)
Lemma body_opened ip status (st : state T) w1 v ks w2 :
  do_open T (conn ip) (world st) = (Returns tt, w1) ->
  sequencer T cfg (conn ip) (stages cfg) w1 = (v, ks, w2) ->
  exists st',
    body ip status st =
      (settled v (fst (do_close T (conn ip) w2)) ip status, st')
    /\ calls st' = calls st ++ Open (conn ip) :: ks
                   ++ match v with Raised _ => [] | _ => [Close (conn ip)] end
    /\ world st' = match v with
                   | Raised _ => w2
                   | _ => snd (do_close T (conn ip) w2)
                   end.
Proof.
  intros Hopen Hseq. run_body. fold (conn ip). answer Hopen.
  unfold stages in Hseq.
  destruct (REMOVE_DEFAULT_PROFILE cfg); cbn in Hseq |- *;
    repeat split_answer Hseq; injection Hseq as <- <- <-;
    try split_close; finish.
Qed.

(** A device that does not open: the two caught errors are recorded under
    their message when it is not empty; with an empty message [err] is
    falsy, the body goes on with [c = None] and the first method call on it
    raises.  Any other error escapes. *)
Lemma body_open_raised ip status (st : state T) e w1 :
  do_open T (conn ip) (world st) = (Raises e, w1) ->
  exists st',
    body ip status st =
      (match e with
       | ScrapliAuthenticationFailed m | ScrapliPrivilegeError m =>
           if truthy m then Returns (set_error ip m status)
           else Raises (AttributeError
                          "'NoneType' object has no attribute 'send_configs'")
       | _ => Raises e
       end, st')
    /\ calls st' = calls st ++ [Open (conn ip)]
    /\ world st' = w1.
Proof.
  intros Hopen. run_body. fold (conn ip). answer Hopen.
  destruct e as [m|m|m|k m]; cbn; try finish;
    destruct m as [|a m]; cbn; try finish;
    destruct (REMOVE_DEFAULT_PROFILE cfg); cbn; finish.
Qed.

Lemma sequencer_stage_calls c l (w : World T) v ks w2 :
  sequencer T cfg c l w = (v, ks, w2) ->
  exists n, ks = map (stage_call cfg c) (firstn n l).
Proof.
  revert w v ks w2. induction l as [|s l IH]; cbn; intros w v ks w2 H.
  - injection H as <- <- <-. now exists 0.
  - destruct (stage_answer T cfg c s w) as [[r|e] w'] eqn:E.
    + destruct (failed r).
      * injection H as <- <- <-. now exists 1.
      * destruct (sequencer T cfg c l w') as [[v' ks'] w''] eqn:E'.
        injection H as <- <- <-.
        destruct (IH _ _ _ _ E') as [n ->]. now exists (S n).
    + injection H as <- <- <-. now exists 1.
Qed.

Lemma stage_calls_no_close c l :
  filter is_close (map (stage_call cfg c) l) = [].
Proof. induction l as [|[] l IH]; cbn; auto. Qed.

Lemma stage_calls_no_open c l :
  filter is_open (map (stage_call cfg c) l) = [].
Proof. induction l as [|[] l IH]; cbn; auto. Qed.

(** Stage [k] is the first to fail: the sequencer stops there. *)
Lemma sequencer_fails_at c l k sk (w wk wk' : World T) r :
  nth_error l k = Some sk ->
  all_pass T cfg c (firstn k l) w = Some wk ->
  stage_answer T cfg c sk wk = (Returns r, wk') ->
  failed r = true ->
  sequencer T cfg c l w = (Failed r, map (stage_call cfg c) (firstn (S k) l), wk').
Proof.
  revert l w. induction k as [|k IH]; intros [|s l] w Hn Hp Ha Hf;
    try discriminate; cbn in Hn, Hp.
  - injection Hn as ->. injection Hp as ->. cbn. now rewrite Ha, Hf.
  - cbn [sequencer]. destruct (stage_answer T cfg c s w) as [[r0|e0] w0] eqn:E;
      [|discriminate].
    destruct (failed r0); [discriminate|].
    rewrite (IH l w0 Hn Hp Ha Hf). reflexivity.
Qed.

(** Every stage passes. *)
Lemma sequencer_passes c l (w w' : World T) :
  all_pass T cfg c l w = Some w' ->
  sequencer T cfg c l w = (Passed, map (stage_call cfg c) l, w').
Proof.
  revert w. induction l as [|s l IH]; cbn; intros w H.
  - now injection H as ->.
  - destruct (stage_answer T cfg c s w) as [[r0|e0] w0] eqn:E; [|discriminate].
    destruct (failed r0); [discriminate|]. now rewrite (IH w0 H).
Qed.

(** What a body that returns has done to [status]: one assignment into
    [errors] or one [append] to [success], under the address it was given. *)
Lemma body_returns ip status (st : state T) status' st' :
  body ip status st = (Returns status', st') ->
  status' = append_success ip status \/ exists m, status' = set_error ip m status.
Proof.
  intros H.
  destruct (do_open T (conn ip) (world st)) as [[[]|e] w1] eqn:Ho.
  - destruct (sequencer T cfg (conn ip) (stages cfg) w1) as [[v ks] w2] eqn:Hs.
    destruct (body_opened ip status st _ _ _ _ Ho Hs) as (st1 & Hb & _).
    rewrite Hb in H. unfold settled in H.
    destruct v; destruct (fst (do_close T (conn ip) w2));
      try discriminate; injection H as <- <-; eauto.
  - destruct (body_open_raised ip status st _ _ Ho) as (st1 & Hb & _).
    rewrite Hb in H.
    destruct e as [m|m|m|k m]; try discriminate;
      destruct (truthy m); try discriminate; injection H as <- <-; eauto.
Qed.

(** The calls of one body: the only [Open] is the one [connectSSH] makes. *)
Lemma body_calls ip status (st : state T) r st' :
  body ip status st = (r, st') ->
  exists seg, calls st' = calls st ++ Open (conn ip) :: seg
              /\ filter is_open seg = [].
Proof.
  intros H.
  destruct (do_open T (conn ip) (world st)) as [[[]|e] w1] eqn:Ho.
  - destruct (sequencer T cfg (conn ip) (stages cfg) w1) as [[v ks] w2] eqn:Hs.
    destruct (body_opened ip status st _ _ _ _ Ho Hs) as (st1 & Hb & Hc & _).
    rewrite Hb in H. injection H as <- <-.
    destruct (sequencer_stage_calls _ _ _ _ _ _ Hs) as [n ->].
    eexists; split; [exact Hc|].
    rewrite filter_app, stage_calls_no_open. now destruct v.
  - destruct (body_open_raised ip status st _ _ Ho) as (st1 & Hb & Hc & _).
    rewrite Hb in H. injection H as <- <-. now exists [].
Qed.

(** *** The loop *)

Lemma for_each_cons ip rest status (st : state T) :
  for_each T body (ip :: rest) status st =
  match body ip status st with
  | (Returns status', st') => for_each T body rest status' st'
  | (Raises e, st') => (Raises e, st')
  end.
Proof. reflexivity. Qed.

(** With pairwise distinct addresses, a loop that runs to its end leaves
    every address under exactly one of the two keys of [status]. *)
Lemma for_each_buckets iplist : forall status (st : state T) status' st',
  for_each T body iplist status st = (Returns status', st') ->
  NoDup (keys (errors status) ++ success status ++ iplist) ->
  Permutation (keys (errors status') ++ success status')
              (keys (errors status) ++ success status ++ iplist).
Proof.
  induction iplist as [|ip rest IH]; intros status st status' st' H ND.
  - cbn in H. injection H as <- <-. now rewrite app_nil_r.
  - rewrite for_each_cons in H.
    destruct (body ip status st) as [[s1|e] st1] eqn:Hb; [|discriminate].
    destruct (body_returns _ _ _ _ _ Hb) as [->|[m ->]].
    + specialize (IH _ _ _ _ H). cbn [errors success append_success] in IH.
      rewrite <- app_assoc in IH. now apply IH.
    + assert (Hnew : ~ In ip (keys (errors status))).
      { intros Hin. pose proof ND as ND'. rewrite app_assoc in ND'.
        apply NoDup_remove_2 in ND'. apply ND'.
        apply in_or_app. left. apply in_or_app. now left. }
      specialize (IH _ _ _ _ H). cbn [errors success set_error] in IH.
      rewrite (keys_dict_set_new ip m _ Hnew) in IH.
      assert (P : Permutation ((keys (errors status) ++ [ip]) ++ success status ++ rest)
                              (keys (errors status) ++ success status ++ ip :: rest)).
      { rewrite <- app_assoc. apply Permutation_app_head. cbn.
        apply Permutation_middle. }
      etransitivity; [apply IH|exact P].
      eapply Permutation_NoDup; [symmetry; exact P|exact ND].
Qed.

(** Every [Open] of a loop is the one [connectSSH] makes for an address of
    the list. *)
Lemma for_each_calls iplist : forall status (st : state T) r st',
  for_each T body iplist status st = (r, st') ->
  exists seg, calls st' = calls st ++ seg
    /\ Forall (fun k => is_open k = true ->
                       exists ip, In ip iplist /\ k = Open (conn ip)) seg.
Proof.
  induction iplist as [|ip rest IH]; intros status st r st' H.
  - cbn in H. injection H as <- <-. exists []. now rewrite app_nil_r.
  - rewrite for_each_cons in H.
    destruct (body ip status st) as [[s1|e] st1] eqn:Hb;
      destruct (body_calls _ _ _ _ _ Hb) as (seg & Hc & Hno).
    + destruct (IH _ _ _ _ H) as (seg' & Hc' & Hall).
      exists ((Open (conn ip) :: seg) ++ seg'). split.
      * rewrite Hc', Hc, <- app_assoc. reflexivity.
      * apply Forall_app. split.
        -- constructor; [intros _; exists ip; split; [now left|reflexivity]|].
           apply Forall_forall. intros k Hk Ho. exfalso.
           assert (In k (filter is_open seg)) by (apply filter_In; tauto).
           rewrite Hno in H0. contradiction.
        -- eapply Forall_impl; [|exact Hall].
           intros k Hk Ho. destruct (Hk Ho) as (ip' & Hin & ->).
           exists ip'. split; [now right|reflexivity].
    + injection H as <- <-. exists (Open (conn ip) :: seg). split; [exact Hc|].
      constructor; [intros _; exists ip; split; [now left|reflexivity]|].
      apply Forall_forall. intros k Hk Ho. exfalso.
      assert (In k (filter is_open seg)) by (apply filter_In; tauto).
      rewrite Hno in H. contradiction.
Qed.

(** *** Calls and stages *)

Lemma new_calls_app (st st' : state T) seg :
  calls st' = calls st ++ seg -> new_calls st st' = seg.
Proof.
  intros H. unfold new_calls. rewrite H, skipn_app, skipn_all, Nat.sub_diag.
  reflexivity.
Qed.

Lemma in_firstn {A : Type} (x : A) n l : In x (firstn n l) -> In x l.
Proof.
  intros H. rewrite <- (firstn_skipn n l). apply in_or_app. now left.
Qed.

Lemma config_sets_differ : REMOVE_SSM_CONFIG cfg <> SSM_CONFIG cfg.
Proof. intros H. apply (f_equal (@length string)) in H. discriminate H. Qed.

Lemma stage_call_inj c s s' :
  stage_call cfg c s = stage_call cfg c s' -> s = s'.
Proof.
  destruct s, s'; cbn; intros H; try reflexivity; try discriminate H;
    injection H as H; exfalso; apply config_sets_differ; congruence.
Qed.

Lemma stages_NoDup : NoDup (stages cfg).
Proof.
  unfold stages. destruct (REMOVE_DEFAULT_PROFILE cfg); cbn;
    repeat constructor; cbn; intuition discriminate.
Qed.

(** A stage call in the calls of one body is the call of one of the stages
    that were run. *)
Lemma stage_call_in_segment c s l tail :
  filter is_stage_call tail = [] ->
  In (stage_call cfg c s) (Open c :: map (stage_call cfg c) l ++ tail) ->
  In s l.
Proof.
  intros Ht [H|H]; [destruct s; discriminate H|].
  apply in_app_or in H as [H|H].
  - apply in_map_iff in H as (s' & E & Hin). apply stage_call_inj in E. now subst.
  - exfalso. assert (In (stage_call cfg c s) (filter is_stage_call tail)).
    { apply filter_In. split; [assumption|now destruct s]. }
    rewrite Ht in H0. contradiction.
Qed.

Lemma sequencer_first c s l (w : World T) v ks w2 :
  sequencer T cfg c (s :: l) w = (v, ks, w2) ->
  exists ks', ks = stage_call cfg c s :: ks'.
Proof.
  cbn. destruct (stage_answer T cfg c s w) as [[r|e] w'].
  - destruct (failed r).
    + intros [= <- <- <-]. eauto.
    + destruct (sequencer T cfg c l w') as [[v' ks'] w'']. intros [= <- <- <-]. eauto.
  - intros [= <- <- <-]. eauto.
Qed.

(** *** The session *)

(** C1, amended: for a device whose session was opened, [close] is called
    exactly once, as the last driver call of the body and so before
    anything is done for the next address, whenever no stage raises: when
    all stages passed and when one reported failure.  The body then returns
    if [close] returns, and an exception of [close] leaves the body.  When
    a stage raises, the exception leaves the body and [close] is not
    called. *)
Theorem session_closed_once_unless_stage_raises ip status (st : state T) w1 :
  do_open T (conn ip) (world st) = (Returns tt, w1) ->
  let r := fst (body ip status st) in
  let st' := snd (body ip status st) in
  (forall status', r = Returns status' ->
     exists ks,
       calls st' = calls st ++ Open (conn ip) :: ks ++ [Close (conn ip)]
       /\ filter is_close ks = []
       /\ length (filter is_close (new_calls st st')) = 1)
  /\ (forall v ks w2,
        sequencer T cfg (conn ip) (stages cfg) w1 = (v, ks, w2) ->
        match v with
        | Raised e =>
            r = Raises e
            /\ new_calls st st' = Open (conn ip) :: ks
            /\ filter is_close (new_calls st st') = []
        | _ =>
            new_calls st st' = Open (conn ip) :: ks ++ [Close (conn ip)]
            /\ filter is_close ks = []
            /\ length (filter is_close (new_calls st st')) = 1
            /\ match fst (do_close T (conn ip) w2) with
               | Returns _ => exists status', r = Returns status'
               | Raises e => r = Raises e
               end
        end).
Proof.
  intros Ho r st'.
  destruct (sequencer T cfg (conn ip) (stages cfg) w1) as [[v ks] w2] eqn:Hs.
  destruct (body_opened ip status st _ _ _ _ Ho Hs) as (st1 & Hb & Hc & _).
  subst r st'. rewrite Hb. cbn [fst snd].
  destruct (sequencer_stage_calls _ _ _ _ _ _ Hs) as [n Hks].
  assert (Hno : filter is_close ks = []) by (rewrite Hks; apply stage_calls_no_close).
  pose proof (new_calls_app _ _ _ Hc) as Hnew.
  assert (Hone : forall tail, filter is_close tail = [Close (conn ip)] ->
            length (filter is_close (Open (conn ip) :: ks ++ tail)) = 1).
  { intros tail Ht. cbn [filter is_close]. now rewrite filter_app, Hno, Ht. }
  split.
  - intros status' Hr. exists ks.
    destruct v; cbn [settled] in Hr; try discriminate Hr;
      (split; [exact Hc|split; [exact Hno|]]);
      rewrite Hnew; now apply Hone.
  - intros v' ks' w2' [= <- <- <-].
    destruct v; cbn [settled].
    + split; [exact Hnew|]. split; [exact Hno|].
      split; [rewrite Hnew; now apply Hone|].
      destruct (fst (do_close T (conn ip) w2)); eauto.
    + split; [exact Hnew|]. split; [exact Hno|].
      split; [rewrite Hnew; now apply Hone|].
      destruct (fst (do_close T (conn ip) w2)); eauto.
    + split; [reflexivity|]. rewrite Hnew, app_nil_r. split; [reflexivity|].
      cbn [filter is_close]. exact Hno.
Qed.

(** *** Fail-fast stages *)

(** C4, amended: when the stages before stage [k] pass and stage [k]
    answers with [failed] set, the body makes the calls of stages [0..k]
    and no call of a later stage, assigns the [result] of that answer to
    the address in [errors], and calls [close].  When [close] returns, the
    body returns with that entry and the loop goes on with the next
    address; an exception of [close] leaves the loop. *)
Theorem failing_stage_halts_device ip rest status (st : state T)
    w1 k sk wk wk' r :
  do_open T (conn ip) (world st) = (Returns tt, w1) ->
  nth_error (stages cfg) k = Some sk ->
  all_pass T cfg (conn ip) (firstn k (stages cfg)) w1 = Some wk ->
  stage_answer T cfg (conn ip) sk wk = (Returns r, wk') ->
  failed r = true ->
  exists st',
    body ip status st
    = (match fst (do_close T (conn ip) wk') with
       | Returns _ => Returns (set_error ip (result r) status)
       | Raises e => Raises e
       end, st')
    /\ calls st' = calls st ++ Open (conn ip)
                   :: map (stage_call cfg (conn ip)) (firstn (S k) (stages cfg))
                   ++ [Close (conn ip)]
    /\ (forall j sj, k < j -> nth_error (stages cfg) j = Some sj ->
          ~ In (stage_call cfg (conn ip) sj) (new_calls st st'))
    /\ dict_get ip (errors (set_error ip (result r) status)) = Some (result r)
    /\ success (set_error ip (result r) status) = success status
    /\ for_each T body (ip :: rest) status st
       = match fst (do_close T (conn ip) wk') with
         | Returns _ => for_each T body rest (set_error ip (result r) status) st'
         | Raises e => (Raises e, st')
         end.
Proof.
  intros Ho Hk Hp Ha Hf.
  pose proof (sequencer_fails_at _ _ _ _ _ _ _ _ Hk Hp Ha Hf) as Hs.
  destruct (body_opened ip status st _ _ _ _ Ho Hs) as (st' & Hb & Hc & _).
  cbn [settled] in Hb.
  exists st'. repeat split; try assumption.
  - intros j sj Hj Hn Hin. rewrite (new_calls_app _ _ _ Hc) in Hin.
    apply stage_call_in_segment in Hin; [|reflexivity].
    apply In_nth_error in Hin as [i Hi].
    rewrite nth_error_firstn in Hi.
    destruct (Nat.ltb_spec i (S k)) as [Hlt|]; [|discriminate Hi].
    assert (i = j); [|lia].
    apply (proj1 (NoDup_nth_error _) stages_NoDup).
    + apply nth_error_Some. now rewrite Hi.
    + now rewrite Hi, Hn.
  - apply dict_get_set.
  - rewrite for_each_cons, Hb.
    destruct (fst (do_close T (conn ip) wk')); reflexivity.
Qed.

(** *** The optional stage *)

(** C7: for a device whose session was opened, the body sends
    [REMOVE_SSM_CONFIG] exactly when [REMOVE_DEFAULT_PROFILE] is set.  When
    it is not set, the outcome of the body and the calls it makes are those
    of the two remaining stages alone, run from the world the devices are
    in right after [open] and followed by [close] as on any other run: the
    removal adds no call, no entry in [errors] and no entry in
    [success]. *)
Theorem removal_stage_follows_toggle ip status (st : state T) w1 :
  do_open T (conn ip) (world st) = (Returns tt, w1) ->
  let r := fst (body ip status st) in
  let st' := snd (body ip status st) in
  (In (Send_configs (conn ip) (REMOVE_SSM_CONFIG cfg)) (new_calls st st')
   <-> REMOVE_DEFAULT_PROFILE cfg = true)
  /\ (REMOVE_DEFAULT_PROFILE cfg = false ->
      forall v ks w2,
        sequencer T cfg (conn ip) [ApplyNewProfile; RegisterLicense] w1
          = (v, ks, w2) ->
        r = settled v (fst (do_close T (conn ip) w2)) ip status
        /\ new_calls st st'
           = Open (conn ip) :: ks
             ++ match v with Raised _ => [] | _ => [Close (conn ip)] end
        /\ exists ks', ks = Send_configs (conn ip) (SSM_CONFIG cfg) :: ks').
Proof.
  intros Ho r st'.
  destruct (sequencer T cfg (conn ip) (stages cfg) w1) as [[v ks] w2] eqn:Hs.
  destruct (body_opened ip status st _ _ _ _ Ho Hs) as (st1 & Hb & Hc & _).
  subst r st'. rewrite Hb. cbn [fst snd].
  rewrite (new_calls_app _ _ _ Hc). split; [split|].
  - intros Hin. destruct (REMOVE_DEFAULT_PROFILE cfg) eqn:Toggle; [reflexivity|].
    exfalso. destruct (sequencer_stage_calls _ _ _ _ _ _ Hs) as [n ->].
    change (Send_configs (conn ip) (REMOVE_SSM_CONFIG cfg))
      with (stage_call cfg (conn ip) RemoveDefaultProfile) in Hin.
    apply stage_call_in_segment in Hin; [|now destruct v].
    apply in_firstn in Hin. unfold stages in Hin. rewrite Toggle in Hin.
    cbn in Hin. intuition discriminate.
  - intros Toggle. unfold stages in Hs. rewrite Toggle in Hs. cbn [app] in Hs.
    destruct (sequencer_first _ _ _ _ _ _ _ Hs) as [ks' ->]. right. now left.
  - intros Toggle v' ks' w2' Hs'. unfold stages in Hs. rewrite Toggle in Hs.
    cbn [app] in Hs. rewrite Hs in Hs'. injection Hs' as <- <- <-.
    repeat split. apply (sequencer_first _ _ _ _ _ _ _ Hs).
Qed.

(** *** Errors at the boundary of the loop *)

(** C3, amended: an authentication or privilege error raised by [open] with
    a non-empty message becomes an entry of [errors] under the address, and
    so does a stage that reports failure once [close] has returned; the
    loop then goes on with the next address.  An exception of any other
    class raised by [open], and any exception raised by a stage or by
    [close], leaves the loop, as an unreadable device list leaves [run]. *)
Theorem caught_errors_become_report_entries ip rest status (st : state T) :
  (forall e m w1,
      do_open T (conn ip) (world st) = (Raises e, w1) ->
      e = ScrapliAuthenticationFailed m \/ e = ScrapliPrivilegeError m ->
      m <> "" ->
      exists st',
        body ip status st = (Returns (set_error ip m status), st')
        /\ for_each T body (ip :: rest) status st
           = for_each T body rest (set_error ip m status) st')
  /\ (forall w1 a ks w2 w3,
        do_open T (conn ip) (world st) = (Returns tt, w1) ->
        sequencer T cfg (conn ip) (stages cfg) w1 = (Failed a, ks, w2) ->
        do_close T (conn ip) w2 = (Returns tt, w3) ->
        exists st',
          body ip status st = (Returns (set_error ip (result a) status), st')
          /\ for_each T body (ip :: rest) status st
             = for_each T body rest (set_error ip (result a) status) st')
  /\ (forall w1 v ks w2 e w3,
        do_open T (conn ip) (world st) = (Returns tt, w1) ->
        sequencer T cfg (conn ip) (stages cfg) w1 = (v, ks, w2) ->
        do_close T (conn ip) w2 = (Raises e, w3) ->
        (forall e', v <> Raised e') ->
        fst (for_each T body (ip :: rest) status st) = Raises e)
  /\ (forall class m w1,
        do_open T (conn ip) (world st) = (Raises (OtherError class m), w1) ->
        fst (for_each T body (ip :: rest) status st)
        = Raises (OtherError class m))
  /\ (forall w1 e ks w2,
        do_open T (conn ip) (world st) = (Returns tt, w1) ->
        sequencer T cfg (conn ip) (stages cfg) w1 = (Raised e, ks, w2) ->
        fst (for_each T body (ip :: rest) status st) = Raises e)
  /\ (forall iplist e,
        fst (for_each T body iplist {| errors := []; success := [] |}
               (snd (add_task T "Send Config" (length iplist) st))) = Raises e ->
        fst (updateConfiguration T cfg iplist user password enable_password st)
        = Raises e)
  /\ (forall ip_address read_lines op e,
        read_lines (DEVICE_LIST cfg) = Raises e ->
        fst (run ip_address T cfg read_lines op st) = Raises e).
Proof.
  repeat split.
  - intros e m w1 Ho He Hm.
    destruct (body_open_raised ip status st _ _ Ho) as (st' & Hb & _).
    assert (Ht : truthy m = true) by (destruct m; [contradiction|reflexivity]).
    exists st'. destruct He as [-> | ->]; rewrite Ht in Hb;
      (split; [exact Hb|rewrite for_each_cons, Hb; reflexivity]).
  - intros w1 a ks w2 w3 Ho Hs Hcl.
    destruct (body_opened ip status st _ _ _ _ Ho Hs) as (st' & Hb & _).
    rewrite Hcl in Hb. cbn [settled fst] in Hb.
    exists st'. split; [exact Hb|rewrite for_each_cons, Hb; reflexivity].
  - intros w1 v ks w2 e w3 Ho Hs Hcl Hv.
    destruct (body_opened ip status st _ _ _ _ Ho Hs) as (st' & Hb & _).
    rewrite Hcl in Hb. cbn [fst] in Hb. rewrite for_each_cons, Hb.
    destruct v; cbn [settled fst]; try reflexivity.
    exfalso. now apply (Hv e0).
  - intros class m w1 Ho.
    destruct (body_open_raised ip status st _ _ Ho) as (st' & Hb & _).
    rewrite for_each_cons, Hb. reflexivity.
  - intros w1 e ks w2 Ho Hs.
    destruct (body_opened ip status st _ _ _ _ Ho Hs) as (st' & Hb & _).
    cbn [settled] in Hb. rewrite for_each_cons, Hb. reflexivity.
  - intros iplist e. unfold updateConfiguration, bind. cbn [add_task snd].
    fold body. destruct (for_each T body iplist _ _) as [[s1|e1] st1];
      cbn [fst]; [discriminate|tauto].
  - intros ip_address read_lines op e Hr.
    unfold run, loadDeviceList, bind, print, raise. cbn. rewrite Hr. reflexivity.
Qed.

(** *** A session that does not open *)

(** C5, amended: when [open] raises, the body makes that one call and no
    other: no stage is attempted and [open] is not tried again.  An
    authentication failure and a privilege failure are both returned by
    [connectSSH] as no driver and the message of the exception, so that the
    caller can tell them apart by the message only; with a non-empty message
    the body stores it under the address in [errors] and returns. *)
Theorem failed_open_attempts_no_stage ip status (st : state T) e w1 :
  do_open T (conn ip) (world st) = (Raises e, w1) ->
  let r := fst (body ip status st) in
  let st' := snd (body ip status st) in
  calls st' = calls st ++ [Open (conn ip)]
  /\ filter is_stage_call (new_calls st st') = []
  /\ length (filter is_open (new_calls st st')) = 1
  /\ (forall m,
        e = ScrapliAuthenticationFailed m \/ e = ScrapliPrivilegeError m ->
        fst (connectSSH T ip user password enable_password st)
        = Returns (None, Some m)
        /\ (m <> "" ->
            r = Returns (set_error ip m status)
            /\ dict_get ip (errors (set_error ip m status)) = Some m
            /\ success (set_error ip m status) = success status)).
Proof.
  intros Ho r st'.
  destruct (body_open_raised ip status st _ _ Ho) as (st1 & Hb & Hc & _).
  subst r st'. rewrite Hb. cbn [fst snd].
  rewrite (new_calls_app _ _ _ Hc). repeat split; try assumption.
  - unfold connectSSH, conn_open, driver. fold (conn ip). rewrite Ho.
    destruct H as [-> | ->]; reflexivity.
  - destruct m; [contradiction|]. destruct H as [-> | ->]; reflexivity.
  - apply dict_get_set.
Qed.

(** *** The options of the transport *)

(** C8: the driver that [connectSSH] opens is built with
    [auth_strict_key] off and with an [ssh] command line that appends one
    key-exchange algorithm and one cipher to the defaults.  [connectSSH]
    makes one [open] call on that driver and changes nothing else; the
    options are arguments of that driver alone.  Every [open] of
    [updateConfiguration] is made this way. *)
Theorem open_uses_legacy_options :
  (forall device,
      auth_strict_key (conn device) = false
      /\ transport_options (conn device)
         = Some {| open_cmd :=
                     [ "-o"; "KexAlgorithms=+diffie-hellman-group-exchange-sha1";
                       "-o"; "Ciphers=+aes256-cbc" ] |}
      /\ appended "KexAlgorithms" (conn device)
         = ["diffie-hellman-group-exchange-sha1"]
      /\ appended "Ciphers" (conn device) = ["aes256-cbc"]
      /\ host (conn device) = device)
  /\ (forall device (st : state T),
        let st' := snd (connectSSH T device user password enable_password st) in
        calls st' = calls st ++ [Open (conn device)]
        /\ world st' = snd (do_open T (conn device) (world st))
        /\ console st' = console st
        /\ progress st' = progress st)
  /\ (forall iplist (st : state T) k,
        In k (new_calls st
                (snd (updateConfiguration T cfg iplist user password
                        enable_password st))) ->
        is_open k = true ->
        exists ip, In ip iplist /\ k = Open (conn ip)).
Proof.
  split; [|split].
  - intros device. unfold conn, device_kwargs.
    destruct (truthy_opt enable_password); repeat split.
  - intros device st st'. subst st'.
    unfold connectSSH, conn_open, driver. fold (conn device).
    destruct (do_open T (conn device) (world st)) as [[[]|e] w];
      [|destruct e]; repeat split.
  - intros iplist st k Hin Hopen.
    unfold updateConfiguration, bind in Hin. cbn [add_task] in Hin. fold body in Hin.
    match type of Hin with
    | context [for_each T body iplist ?s0 ?st0] =>
        destruct (for_each T body iplist s0 st0) as [r st1] eqn:Hl;
        destruct (for_each_calls _ _ _ _ _ Hl) as (seg & Hc & Hall)
    end.
    assert (Hseg : new_calls st st1 = seg) by (apply new_calls_app; exact Hc).
    assert (Hin' : In k seg).
    { rewrite <- Hseg. destruct r; exact Hin. }
    rewrite Forall_forall in Hall. exact (Hall k Hin' Hopen).
Qed.

(** *** More on the loop body *)

Ltac split_paths :=
  match goal with
  | |- context [do_send_configs ?T ?c ?l ?w] =>
      destruct (do_send_configs T c l w) as [[?r|?e] ?u]; cbn
  | |- context [do_send_command ?T ?c ?l ?w] =>
      destruct (do_send_command T c l w) as [[?r|?e] ?u]; cbn
  | |- context [failed ?r] => destruct (failed r); cbn
  | |- context [do_close ?T ?c ?w] =>
      destruct (do_close T c w) as [[[]|?e] ?u]; cbn
  end.

(** The progress bar moves by one when the body returns and stays when it
    raises; the console only grows. *)
Lemma body_progress ip status (st : state T) r st' :
  body ip status st = (r, st') ->
  progress st' = match r with
                 | Returns _ => advance_by 1 (progress st)
                 | Raises _ => progress st
                 end.
Proof.
  revert r st'. run_body. fold (conn ip).
  destruct (do_open T (conn ip) (world st)) as [[[]|e] w1]; cbn.
  - destruct (REMOVE_DEFAULT_PROFILE cfg); cbn; repeat split_paths;
      intros res stf [= <- <-]; cbn; destruct (progress st); reflexivity.
  - destruct e as [m|m|m|k m]; cbn;
      try (intros res stf [= <- <-]; reflexivity);
      destruct m as [|a m]; cbn;
      try (intros res stf [= <- <-]; cbn; destruct (progress st); reflexivity);
      destruct (REMOVE_DEFAULT_PROFILE cfg); cbn;
      intros res stf [= <- <-]; reflexivity.
Qed.

(** Every call of one body is made on the driver of its address. *)
Lemma body_calls_driver ip status (st : state T) r st' :
  body ip status st = (r, st') ->
  exists seg, calls st' = calls st ++ seg
              /\ Forall (fun k => call_driver k = conn ip) seg.
Proof.
  intros H.
  destruct (do_open T (conn ip) (world st)) as [[[]|e] w1] eqn:Ho.
  - destruct (sequencer T cfg (conn ip) (stages cfg) w1) as [[v ks] w2] eqn:Hs.
    destruct (body_opened ip status st _ _ _ _ Ho Hs) as (st1 & Hb & Hc & _).
    rewrite Hb in H. injection H as <- <-.
    destruct (sequencer_stage_calls _ _ _ _ _ _ Hs) as [n ->].
    eexists; split; [exact Hc|].
    constructor; [reflexivity|]. apply Forall_app. split.
    + apply Forall_forall. intros k Hk. apply in_map_iff in Hk as (s & <- & _).
      now destruct s.
    + destruct v; repeat constructor.
  - destruct (body_open_raised ip status st _ _ Ho) as (st1 & Hb & Hc & _).
    rewrite Hb in H. injection H as <- <-.
    eexists; split; [exact Hc|]. repeat constructor.
Qed.

Lemma advance_by_add n m p : advance_by n (advance_by m p) = advance_by (n + m) p.
Proof. destruct p; cbn; [|reflexivity]. do 2 f_equal. lia. Qed.

Lemma stage_calls_all_stage c l :
  filter is_stage_call (map (stage_call cfg c) l) = map (stage_call cfg c) l.
Proof. induction l as [|[] l IH]; cbn; congruence. Qed.

Lemma sequencer_passed c l : forall (w : World T) ks w2,
  sequencer T cfg c l w = (Passed, ks, w2) -> all_pass T cfg c l w = Some w2.
Proof.
  induction l as [|s l IH]; cbn; intros w ks w2 H.
  - now injection H as _ ->.
  - destruct (stage_answer T cfg c s w) as [[r|e] w']; [|discriminate H].
    destruct (failed r); [discriminate H|].
    destruct (sequencer T cfg c l w') as [[v' ks'] w''] eqn:E.
    injection H as -> _ ->. exact (IH _ _ _ E).
Qed.

(** The loop: how far the bar has moved, and which sessions were asked for. *)
Lemma for_each_trace iplist : forall status (st : state T) r st',
  for_each T body iplist status st = (r, st') ->
  exists seg n,
    calls st' = calls st ++ seg
    /\ progress st' = advance_by n (progress st)
    /\ filter is_open seg
       = map (fun ip => Open (conn ip))
           (firstn (match r with Returns _ => n | Raises _ => S n end) iplist)
    /\ match r with
       | Returns _ => n = length iplist
       | Raises _ => n < length iplist
       end.
Proof.
  induction iplist as [|ip rest IH]; intros status st r st' H.
  - cbn in H. injection H as <- <-. exists [], 0. rewrite app_nil_r.
    repeat split. now destruct (progress st) as [[]|].
  - rewrite for_each_cons in H.
    destruct (body ip status st) as [[s1|e] st1] eqn:Hb;
      pose proof (body_progress _ _ _ _ _ Hb) as Hp; cbn in Hp;
      destruct (body_calls _ _ _ _ _ Hb) as (seg & Hc & Hno).
    + destruct (IH _ _ _ _ H) as (seg' & n & Hc' & Hn & Hf & Hr).
      exists ((Open (conn ip) :: seg) ++ seg'), (S n). split; [|split; [|split]].
      * rewrite Hc', Hc, <- app_assoc. reflexivity.
      * rewrite Hn, Hp, advance_by_add. f_equal. lia.
      * rewrite filter_app. cbn [filter is_open app]. rewrite Hno, Hf.
        destruct r; reflexivity.
      * destruct r; cbn; lia.
    + injection H as <- <-. exists (Open (conn ip) :: seg), 0.
      split; [exact Hc|]. split; [rewrite Hp; now destruct (progress st) as [[]|]|].
      split; [cbn; now rewrite Hno|cbn; lia].
Qed.

Lemma updateConfiguration_loop iplist (st : state T) :
  updateConfiguration T cfg iplist user password enable_password st
  = for_each T body iplist {| errors := []; success := [] |}
      (snd (add_task T "Send Config" (length iplist) st)).
Proof.
  unfold updateConfiguration, bind, ret. cbn [add_task snd]. fold body.
  match goal with
  | |- context [for_each T body iplist ?s0 ?st0] =>
      destruct (for_each T body iplist s0 st0) as [[s1|e] st1]
  end; reflexivity.
Qed.

(** The loop and the two keys of [status], whatever the list. *)
Lemma for_each_covers iplist : forall status (st : state T) status' st',
  for_each T body iplist status st = (Returns status', st') ->
  (forall a, In a (success status') \/ In a (keys (errors status')) <->
             (In a (success status) \/ In a (keys (errors status)))
             \/ In a iplist)
  /\ length (success status') + length (errors status')
     <= length (success status) + length (errors status) + length iplist
  /\ (NoDup (keys (errors status)) -> NoDup (keys (errors status'))).
Proof.
  induction iplist as [|ip rest IH]; intros status st status' st' H.
  - cbn in H. injection H as <- <-. cbn. split; [tauto|]. split; [lia|tauto].
  - rewrite for_each_cons in H.
    destruct (body ip status st) as [[s1|e] st1] eqn:Hb; [|discriminate H].
    destruct (IH _ _ _ _ H) as (Hm & Hl & Hn).
    destruct (body_returns _ _ _ _ _ Hb) as [->|[m ->]];
      cbn [errors success append_success set_error] in *.
    + split; [|split].
      * intros a. rewrite Hm, in_app_iff. cbn. intuition.
      * rewrite length_app in Hl. cbn in *. lia.
      * exact Hn.
    + split; [|split].
      * intros a. rewrite Hm, in_keys_dict_set. cbn. intuition.
      * pose proof (length_dict_set ip m (errors status)). cbn. lia.
      * intros ND. apply Hn. now apply NoDup_keys_dict_set.
Qed.

(** One body prints lines, never a table. *)
Lemma body_console ip status (st : state T) r st' :
  body ip status st = (r, st') ->
  exists con, console st' = console st ++ con /\ filter is_table con = [].
Proof.
  revert r st'. run_body. fold (conn ip).
  destruct (do_open T (conn ip) (world st)) as [[[]|e] w1]; cbn.
  - destruct (REMOVE_DEFAULT_PROFILE cfg); cbn; repeat split_paths;
      intros res stf [= <- <-]; cbn [console];
      (eexists; split; [rewrite <- ?app_assoc; reflexivity|reflexivity]).
  - destruct e as [m|m|m|k m]; cbn;
      try (intros res stf [= <- <-]; cbn [console];
           eexists; split; [rewrite <- ?app_assoc; reflexivity|reflexivity]);
      destruct m as [|a m]; cbn;
      try (intros res stf [= <- <-]; cbn [console];
           eexists; split; [rewrite <- ?app_assoc; reflexivity|reflexivity]);
      destruct (REMOVE_DEFAULT_PROFILE cfg); cbn;
      intros res stf [= <- <-]; cbn [console];
      (eexists; split; [rewrite <- ?app_assoc; reflexivity|reflexivity]).
Qed.

Lemma for_each_console iplist : forall status (st : state T) r st',
  for_each T body iplist status st = (r, st') ->
  exists con, console st' = console st ++ con /\ filter is_table con = [].
Proof.
  induction iplist as [|ip rest IH]; intros status st r st' H.
  - cbn in H. injection H as <- <-. exists []. now rewrite app_nil_r.
  - rewrite for_each_cons in H.
    destruct (body ip status st) as [[s1|e] st1] eqn:Hb;
      destruct (body_console _ _ _ _ _ Hb) as (con & Hc & Hn).
    + destruct (IH _ _ _ _ H) as (con' & Hc' & Hn').
      exists (con ++ con'). split; [rewrite Hc', Hc, <- app_assoc; reflexivity|].
      now rewrite filter_app, Hn, Hn'.
    + injection H as <- <-. now exists con.
Qed.

Lemma for_each_drivers iplist : forall status (st : state T) r st',
  for_each T body iplist status st = (r, st') ->
  exists seg, calls st' = calls st ++ seg
    /\ Forall (fun k => exists ip, In ip iplist /\ call_driver k = conn ip) seg.
Proof.
  induction iplist as [|ip rest IH]; intros status st r st' H.
  - cbn in H. injection H as <- <-. exists []. now rewrite app_nil_r.
  - rewrite for_each_cons in H.
    destruct (body ip status st) as [[s1|e] st1] eqn:Hb;
      destruct (body_calls_driver _ _ _ _ _ Hb) as (seg & Hc & Hd);
      assert (Hd' : Forall (fun k => exists ip', In ip' (ip :: rest)
                                      /\ call_driver k = conn ip') seg)
        by (eapply Forall_impl; [|exact Hd]; intros k Hk; exists ip;
            split; [now left|exact Hk]).
    + destruct (IH _ _ _ _ H) as (seg' & Hc' & Hall).
      exists (seg ++ seg'). split; [rewrite Hc', Hc, <- app_assoc; reflexivity|].
      apply Forall_app. split; [exact Hd'|].
      eapply Forall_impl; [|exact Hall].
      intros k (ip' & Hin & Hk). exists ip'. split; [now right|exact Hk].
    + injection H as <- <-. exists seg. split; [exact Hc|exact Hd'].
Qed.

(** *** The progress bar *)

(** X1: the task of the progress bar is created with the number of
    addresses as its total, and is advanced once for every device whose
    body returns.  When [updateConfiguration] returns, the bar is full;
    when it raises, the bar stands at the number of devices finished
    before, one less than the number of sessions that were asked for. *)
Theorem progress_counts_processed_devices iplist (st : state T) :
  let r := fst (updateConfiguration T cfg iplist user password enable_password st) in
  let st' := snd (updateConfiguration T cfg iplist user password enable_password st) in
  exists n,
    progress st' = Some {| description := "Send Config";
                           total := length iplist; completed := n |}
    /\ match r with
       | Returns _ => n = length iplist
       | Raises _ => n < length iplist
       end
    /\ length (filter is_open (new_calls st st'))
       = match r with Returns _ => n | Raises _ => S n end.
Proof.
  intros r st'. subst r st'. rewrite updateConfiguration_loop.
  match goal with
  | |- context [for_each T body iplist ?s0 ?st0] =>
      destruct (for_each T body iplist s0 st0) as [r st'] eqn:Hl
  end.
  destruct (for_each_trace _ _ _ _ _ Hl) as (seg & n & Hc & Hp & Ho & Hr).
  cbn [fst snd add_task calls progress advance_by description total completed] in *.
  exists n. rewrite Hp, Nat.add_0_r. split; [reflexivity|]. split; [exact Hr|].
  rewrite (new_calls_app _ _ _ Hc), Ho, length_map, length_firstn.
  destruct r; lia.
Qed.

(** *** The order of the sessions *)

(** X2: the sessions are asked for in the order of the list, one per list
    entry, with the driver [connectSSH] builds for that entry.  A run that
    returns has asked for all of them; a run that raises has asked for a
    non-empty initial part of the list. *)
Theorem devices_contacted_in_list_order iplist (st : state T) :
  let r := fst (updateConfiguration T cfg iplist user password enable_password st) in
  let st' := snd (updateConfiguration T cfg iplist user password enable_password st) in
  (exists n,
      filter is_open (new_calls st st')
      = map (fun ip => Open (conn ip)) (firstn n iplist)
      /\ match r with
         | Returns _ => n = length iplist
         | Raises _ => 0 < n <= length iplist
         end)
  /\ (forall status, r = Returns status ->
        filter is_open (new_calls st st') = map (fun ip => Open (conn ip)) iplist).
Proof.
  intros r st'. subst r st'. rewrite updateConfiguration_loop.
  match goal with
  | |- context [for_each T body iplist ?s0 ?st0] =>
      destruct (for_each T body iplist s0 st0) as [r st'] eqn:Hl
  end.
  destruct (for_each_trace _ _ _ _ _ Hl) as (seg & n & Hc & _ & Ho & Hr).
  cbn [fst snd add_task calls] in *. rewrite (new_calls_app _ _ _ Hc), Ho.
  split.
  - eexists. split; [reflexivity|]. destruct r; lia.
  - intros status ->. subst n. now rewrite firstn_all.
Qed.

(** *** Success *)

(** X3: a device whose session opens is appended to [success] exactly when
    every stage of the list answers without [failed] and [close] then
    returns.  When every stage passes, the body has made the call of every
    stage, in order, between [open] and [close]. *)
Theorem success_iff_all_stages_pass ip status (st : state T) w1 :
  do_open T (conn ip) (world st) = (Returns tt, w1) ->
  ((exists w2, all_pass T cfg (conn ip) (stages cfg) w1 = Some w2
               /\ fst (do_close T (conn ip) w2) = Returns tt)
   <-> fst (body ip status st) = Returns (append_success ip status))
  /\ (forall w2, all_pass T cfg (conn ip) (stages cfg) w1 = Some w2 ->
        new_calls st (snd (body ip status st))
        = Open (conn ip) :: map (stage_call cfg (conn ip)) (stages cfg)
          ++ [Close (conn ip)]
        /\ world (snd (body ip status st)) = snd (do_close T (conn ip) w2)).
Proof.
  intros Ho. split; [split|].
  - intros (w2 & Hp & Hcl). pose proof (sequencer_passes _ _ _ _ Hp) as Hs.
    destruct (body_opened ip status st _ _ _ _ Ho Hs) as (st' & Hb & _).
    now rewrite Hb, Hcl.
  - intros Hr.
    destruct (sequencer T cfg (conn ip) (stages cfg) w1) as [[v ks] w2] eqn:Hs.
    destruct (body_opened ip status st _ _ _ _ Ho Hs) as (st' & Hb & _).
    rewrite Hb in Hr. cbn [fst] in Hr. unfold settled in Hr.
    destruct v; destruct (fst (do_close T (conn ip) w2)) as [[]|e0] eqn:Hcl;
      try discriminate Hr.
    + exists w2. split; [exact (sequencer_passed _ _ _ _ _ Hs)|exact Hcl].
    + exfalso. injection Hr as _ Hr.
      apply (f_equal (@length string)) in Hr.
      rewrite length_app in Hr. cbn in Hr. lia.
  - intros w2 Hp. pose proof (sequencer_passes _ _ _ _ Hp) as Hs.
    destruct (body_opened ip status st _ _ _ _ Ho Hs) as (st' & Hb & Hc & Hw).
    rewrite Hb. cbn [snd]. split; [exact (new_calls_app _ _ _ Hc)|exact Hw].
Qed.

(** *** The two keys of [status], for any list *)

(** X4: when [updateConfiguration] returns, whatever the list (repeated
    addresses included), the addresses under [success] or under a key of
    [errors] are exactly the addresses of the list: none is dropped and
    none is made up.  The keys of [errors] are pairwise distinct, and the
    two sizes add up to at most the length of the list. *)
Theorem every_address_recorded iplist (st : state T) status st' :
  updateConfiguration T cfg iplist user password enable_password st
    = (Returns status, st') ->
  (forall a, In a iplist <->
             In a (success status) \/ In a (keys (errors status)))
  /\ length (success status) + length (errors status) <= length iplist
  /\ NoDup (keys (errors status)).
Proof.
  rewrite updateConfiguration_loop. intros Hl.
  destruct (for_each_covers _ _ _ _ _ Hl) as (Hm & Hlen & Hn).
  cbn [errors success keys map length] in *. split; [|split].
  - intros a. specialize (Hm a). cbn in Hm. tauto.
  - lia.
  - apply Hn. constructor.
Qed.

(** X5: [printResults] reads the message of a failed address back with
    [errors[error]].  On the [status] that [updateConfiguration] returns
    that lookup finds, for every key, the message stored in that entry: the
    rows it builds are the entries of the dictionary, in insertion order,
    and no lookup fails. *)
Theorem failure_rows_read_by_key iplist (st : state T) status st' :
  updateConfiguration T cfg iplist user password enable_password st
    = (Returns status, st') ->
  failure_rows_by_key (errors status)
  = map (fun error => Some [fst error; "[red]Failed"; snd error]) (errors status).
Proof.
  rewrite updateConfiguration_loop. intros Hl.
  destruct (for_each_covers _ _ _ _ _ Hl) as (_ & _ & Hn).
  assert (ND : NoDup (keys (errors status))) by (apply Hn; constructor).
  unfold failure_rows_by_key, keys. rewrite map_map. apply map_ext_in.
  intros [k v] Hin. cbn [fst snd]. now rewrite (dict_get_in _ _ _ ND Hin).
Qed.

(** *** One device at a time *)

(** X6: a body that returns has changed the report for its own address
    only: the message stored for any other address is what it was, nothing
    is removed from [success] or from the keys of [errors], and [success]
    grows by at most the address of the body. *)
Theorem device_changes_only_its_own_entry ip status (st : state T) status' st' :
  body ip status st = (Returns status', st') ->
  (forall a, a <> ip ->
     dict_get a (errors status') = dict_get a (errors status))
  /\ (success status' = success status
      \/ success status' = success status ++ [ip])
  /\ (forall a, In a (keys (errors status)) -> In a (keys (errors status')))
  /\ (forall a, In a (keys (errors status')) ->
        a = ip \/ In a (keys (errors status))).
Proof.
  intros Hb. destruct (body_returns _ _ _ _ _ Hb) as [->|[m ->]];
    cbn [errors success append_success set_error].
  - repeat split; auto.
  - repeat split; auto.
    + intros a Ha. now apply dict_get_set_other.
    + intros a Ha. apply in_keys_dict_set. now right.
    + intros a Ha. now apply in_keys_dict_set in Ha.
Qed.

(** *** What [connectSSH] gives back *)

(** X7: [connectSSH] returns a driver and no message exactly when [open]
    returned, and then the driver is the one it built; it returns no driver
    and a message exactly when [open] raised one of the two errors it
    catches, the message being that of the error; it never returns both or
    neither, and what it raises is an error of [open] of another class. *)
Theorem connectSSH_returns_driver_or_message device (st : state T) :
  match fst (connectSSH T device user password enable_password st) with
  | Returns (Some c, None) =>
      c = conn device
      /\ fst (do_open T (conn device) (world st)) = Returns tt
  | Returns (None, Some m) =>
      fst (do_open T (conn device) (world st))
        = Raises (ScrapliAuthenticationFailed m)
      \/ fst (do_open T (conn device) (world st))
         = Raises (ScrapliPrivilegeError m)
  | Returns _ => False
  | Raises e =>
      fst (do_open T (conn device) (world st)) = Raises e
      /\ forall m, e <> ScrapliAuthenticationFailed m
                   /\ e <> ScrapliPrivilegeError m
  end.
Proof.
  unfold connectSSH, conn_open, driver. fold (conn device).
  destruct (do_open T (conn device) (world st)) as [[[]|e] w]; cbn.
  - split; reflexivity.
  - destruct e; cbn; auto; split; auto; split; discriminate.
Qed.

(** *** The order of the stages *)

(** X8: whatever the devices answer, the stage calls of one body are an
    initial part of the stage list, in its order: the registration is never
    requested before the profile batch, nor the profile batch before the
    removal when the removal is switched on. *)
Theorem stage_calls_follow_stage_list ip status (st : state T) :
  exists n,
    filter is_stage_call (new_calls st (snd (body ip status st)))
    = map (stage_call cfg (conn ip)) (firstn n (stages cfg)).
Proof.
  destruct (do_open T (conn ip) (world st)) as [[[]|e] w1] eqn:Ho.
  - destruct (sequencer T cfg (conn ip) (stages cfg) w1) as [[v ks] w2] eqn:Hs.
    destruct (body_opened ip status st _ _ _ _ Ho Hs) as (st1 & Hb & Hc & _).
    rewrite Hb. cbn [snd]. rewrite (new_calls_app _ _ _ Hc).
    destruct (sequencer_stage_calls _ _ _ _ _ _ Hs) as [n ->]. exists n.
    cbn [filter is_stage_call]. rewrite filter_app, stage_calls_all_stage.
    destruct v; cbn; now rewrite app_nil_r.
  - destruct (body_open_raised ip status st _ _ Ho) as (st1 & Hb & Hc & _).
    rewrite Hb. cbn [snd]. rewrite (new_calls_app _ _ _ Hc). now exists 0.
Qed.

(** *** An error without a message *)

(** X15: [connectSSH] hands the caught error over as its message, and the
    loop tests that message for truth.  When [open] raises an
    authentication or privilege error whose message is empty, the loop
    takes the session for opened, calls [send_configs] on [None], and the
    [AttributeError] ends the loop: nothing is recorded for the address,
    no stage reaches a device, and the rest of the list is not visited. *)
Theorem empty_message_ends_the_loop ip rest status (st : state T) e w1 :
  do_open T (conn ip) (world st) = (Raises e, w1) ->
  e = ScrapliAuthenticationFailed "" \/ e = ScrapliPrivilegeError "" ->
  let oops := AttributeError "'NoneType' object has no attribute 'send_configs'" in
  fst (connectSSH T ip user password enable_password st) = Returns (None, Some "")
  /\ fst (body ip status st) = Raises oops
  /\ fst (for_each T body (ip :: rest) status st) = Raises oops
  /\ new_calls st (snd (for_each T body (ip :: rest) status st)) = [Open (conn ip)].
Proof.
  intros Ho He oops.
  destruct (body_open_raised ip status st _ _ Ho) as (st' & Hb & Hc & _).
  assert (Hb' : body ip status st = (Raises oops, st')).
  { rewrite Hb. destruct He as [-> | ->]; reflexivity. }
  rewrite for_each_cons, Hb'. cbn [fst snd]. repeat split.
  - unfold connectSSH, conn_open, driver. fold (conn ip). rewrite Ho.
    destruct He as [-> | ->]; reflexivity.
  - exact (new_calls_app _ _ _ Hc).
Qed.

End Body.

(** ** The enable secret *)


(** ** The report *)

Lemma NoDup_app_apart {A : Type} (l1 l2 : list A) :
  NoDup (l1 ++ l2) -> forall a, In a l1 -> ~ In a l2.
Proof.
  induction l1 as [|x l1 IH]; cbn; intros H a Hin H2; [contradiction|].
  inversion H as [|? ? Hx Hrest]; subst. destruct Hin as [<-|Hin].
  - apply Hx. apply in_or_app. now right.
  - exact (IH Hrest a Hin H2).
Qed.

Lemma updateConfiguration_returns (T : Transport) cfg iplist user password
    enable_password (st : state T) status st' :
  updateConfiguration T cfg iplist user password enable_password st
    = (Returns status, st') ->
  for_each T (process_device T cfg user password enable_password) iplist
    {| errors := []; success := [] |}
    (snd (add_task T "Send Config" (length iplist) st))
  = (Returns status, st').
Proof.
  unfold updateConfiguration, bind, ret. cbn [add_task snd].
  match goal with
  | |- context [for_each T ?b iplist ?s0 ?st0] =>
      destruct (for_each T b iplist s0 st0) as [[s1|e] st1]
  end; intros H; [exact H|discriminate H].
Qed.

(** C2, amended: when the addresses that [loadDeviceList] accepts are
    pairwise distinct and [updateConfiguration] returns, every non-blank
    line is in exactly one of [success], the keys of [errors] and the
    invalid list, no address is in two of them, each accepted address is
    recorded once, and the three sizes add up to the number of non-blank
    lines. *)
Theorem distinct_addresses_one_bucket_each
    (ip_address : string -> bool) (T : Transport) (cfg : Settings)
    (user password : string) (enable_password : option string)
    (file : list string) (st : state T) (status : Status) (st' : state T) :
  NoDup (fst (load_lines ip_address file)) ->
  updateConfiguration T cfg (fst (load_lines ip_address file))
    user password enable_password st = (Returns status, st') ->
  let invalid_ips := snd (load_lines ip_address file) in
  length (success status) + length (errors status) + length invalid_ips
    = length (entries file)
  /\ (forall a, In a (entries file) <->
                In a (success status) \/ In a (keys (errors status))
                \/ In a invalid_ips)
  /\ (forall a, In a (success status) -> ~ In a (keys (errors status)))
  /\ (forall a, In a (success status) -> ~ In a invalid_ips)
  /\ (forall a, In a (keys (errors status)) -> ~ In a invalid_ips)
  /\ NoDup (success status)
  /\ NoDup (keys (errors status)).
Proof.
  intros ND Hrun invalid_ips. subst invalid_ips.
  apply updateConfiguration_returns in Hrun.
  apply for_each_buckets in Hrun; [|exact ND]. cbn [errors success keys map app] in Hrun.
  revert ND Hrun. rewrite load_lines_filter. cbn [fst snd].
  set (valid := filter ip_address (entries file)).
  set (invalid := filter (fun a => negb (ip_address a)) (entries file)).
  intros ND P.
  assert (ND' : NoDup (keys (errors status) ++ success status)).
  { eapply Permutation_NoDup; [symmetry; exact P|exact ND]. }
  assert (Hmem : forall a, In a valid <->
                           In a (success status) \/ In a (keys (errors status))).
  { intros a. split.
    - intros H. apply (Permutation_in _ (Permutation_sym P)) in H.
      apply in_app_or in H. tauto.
    - intros H. apply (Permutation_in _ P). apply in_or_app. tauto. }
  assert (Hsplit : forall a, In a (entries file) <-> In a valid \/ In a invalid).
  { intros a. unfold valid, invalid. rewrite !filter_In.
    destruct (ip_address a); cbn [negb]; intuition discriminate. }
  assert (Hdisj : forall a, In a valid -> ~ In a invalid).
  { intros a Hv Hi. apply filter_In in Hv as [_ Hv]. apply filter_In in Hi as [_ Hi].
    rewrite Hv in Hi. discriminate Hi. }
  repeat split.
  - apply Permutation_length in P. rewrite length_app in P.
    unfold keys in P. rewrite length_map in P.
    rewrite <- (length_filter_split ip_address (entries file)).
    fold valid invalid. lia.
  - intros H. apply Hsplit in H as [H|H]; [apply Hmem in H|]; tauto.
  - intros [H|[H|H]]; apply Hsplit; [left; apply Hmem| left; apply Hmem|right]; tauto.
  - intros a Hs He. exact (NoDup_app_apart _ _ ND' a He Hs).
  - intros a Hs. apply Hdisj, Hmem. tauto.
  - intros a He. apply Hdisj, Hmem. tauto.
  - now apply NoDup_app_remove_l in ND'.
  - now apply NoDup_app_remove_r in ND'.
Qed.

(** ** The whole run *)

Section Run.

Variable ip_address : string -> bool.
Variable T : Transport.
Variable cfg : Settings.
Variable read_lines : string -> outcome (list string).
Variable op : Operator.

Let go := run ip_address T cfg read_lines op.

(** The state in which [updateConfiguration] is entered. *)
Let entered (st : state T) : state T :=
  snd (print T (nl ++ "[bold]Please provide device credentials:")%string
         (snd (loadDeviceList ip_address T cfg read_lines st))).

Lemma skipn_own {A : Type} (l tail : list A) : skipn (length l) (l ++ tail) = tail.
Proof. now rewrite skipn_app, skipn_all, Nat.sub_diag. Qed.

Lemma report_rows_width status bad_ips :
  Forall (fun row => length row = 3) (report_rows status bad_ips).
Proof.
  unfold report_rows. rewrite !Forall_app. repeat split;
    apply Forall_forall; intros row Hin; apply in_map_iff in Hin as (x & <- & _);
    reflexivity.
Qed.

Lemma report_rows_addresses status bad_ips :
  map (hd "") (report_rows status bad_ips)
  = success status ++ keys (errors status) ++ bad_ips.
Proof.
  unfold report_rows, keys. rewrite !map_app, !map_map. cbn [hd].
  rewrite !map_id. reflexivity.
Qed.

(** [printResults] prints and does nothing else; the table comes last. *)
Lemma printResults_prints status bad_ips details (st : state T) :
  exists lines,
    printResults T status bad_ips details st
    = (Returns tt,
       {| world := world st; calls := calls st;
          console := console st ++ lines
                     ++ (if details
                         then [Rendered {| title := "Configuration Change Report";
                                           columns := ["IP Address"; "Status"; "Error"];
                                           rows := report_rows status bad_ips |}]
                         else []);
          progress := progress st |})
    /\ filter is_table lines = [].
Proof.
  exists ([ Line (nl ++ nl ++ "[green]Script Completed!")%string;
            Line (str_of_nat (length (success status))
                  ++ " devices were configured successfully.")%string ]
          ++ (if (0 <? length (errors status))%nat
              then [Line ("[red]" ++ str_of_nat (length (errors status))
                          ++ " errors occured.")%string]
              else [])
          ++ (if details then [Line ""] else [])).
  unfold printResults, bind, print, print_table, ret.
  destruct (0 <? length (errors status))%nat, details;
    cbn [world calls console progress app filter is_table];
    rewrite <- ?app_assoc; split; reflexivity.
Qed.

Lemma entered_frame (st : state T) :
  calls (entered st) = calls st /\ world (entered st) = world st
  /\ exists lines, console (entered st) = console st ++ lines
                   /\ filter is_table lines = [].
Proof.
  unfold entered, loadDeviceList, bind, print, ret, raise.
  destruct (read_lines (DEVICE_LIST cfg)) as [file|e];
    [destruct (load_lines ip_address file) as [v i]|];
    cbn [fst snd calls world console]; (split; [reflexivity|split; [reflexivity|]]);
    (eexists; split; [rewrite <- ?app_assoc; reflexivity|reflexivity]).
Qed.

(** [run] on a readable list: the three parts in a row. *)
Lemma run_readable file (st : state T) :
  read_lines (DEVICE_LIST cfg) = Returns file ->
  go st =
  match updateConfiguration T cfg (fst (load_lines ip_address file))
          (username op) (password_answer op) (enable_pw op) (entered st) with
  | (Returns status, st') =>
      printResults T status (snd (load_lines ip_address file)) (print_details op) st'
  | (Raises e, st') => (Raises e, st')
  end.
Proof.
  intros Hr. unfold go, run, entered, enable_pw, loadDeviceList, bind at 1 2 3.
  unfold print at 1, bind at 1, ret. unfold print at 2. rewrite Hr.
  destruct (load_lines ip_address file) as [v i]. reflexivity.
Qed.

Lemma run_unreadable e (st : state T) :
  read_lines (DEVICE_LIST cfg) = Raises e ->
  go st = (Raises e,
           {| world := world st; calls := calls st;
              console := console st ++ [Line "[bold]Loading device list..."];
              progress := progress st |}).
Proof.
  intros Hr. unfold go, run, loadDeviceList, bind, print, raise. now rewrite Hr.
Qed.

(** X12: on a readable list, every driver call of [run] is made on the
    driver of an entry that [ip_address] accepts, built with the user name,
    the password and the enable secret the operator typed: blank lines and
    rejected entries are never contacted.  On an unreadable list no call is
    made at all. *)
Theorem run_contacts_only_accepted_addresses (st : state T) :
  (forall file, read_lines (DEVICE_LIST cfg) = Returns file ->
     forall k, In k (new_calls st (snd (go st))) ->
       exists ip,
         In ip (fst (load_lines ip_address file))
         /\ ip_address ip = true
         /\ call_driver k
            = device_kwargs ip (username op) (password_answer op) (enable_pw op))
  /\ (forall e, read_lines (DEVICE_LIST cfg) = Raises e ->
        new_calls st (snd (go st)) = []).
Proof.
  split.
  - intros file Hr k Hk. rewrite (run_readable _ _ Hr) in Hk.
    destruct (entered_frame st) as (Hcalls & _ & _).
    destruct (updateConfiguration T cfg (fst (load_lines ip_address file))
                (username op) (password_answer op) (enable_pw op) (entered st))
      as [r st'] eqn:Hu.
    rewrite updateConfiguration_loop in Hu.
    destruct (for_each_drivers _ _ _ _ _ _ _ _ _ _ Hu) as (seg & Hc & Hall).
    cbn [add_task snd calls] in Hc. rewrite Hcalls in Hc.
    assert (Hin : In k seg).
    { destruct r as [status|e].
      - destruct (printResults_prints status (snd (load_lines ip_address file))
                    (print_details op) st') as (lines & Hp & _).
        rewrite Hp in Hk. cbn [snd] in Hk. unfold new_calls in Hk. cbn [calls] in Hk.
        now rewrite Hc, skipn_own in Hk.
      - cbn [snd] in Hk. unfold new_calls in Hk. now rewrite Hc, skipn_own in Hk. }
    rewrite Forall_forall in Hall. destruct (Hall k Hin) as (ip & Hip & Hd).
    exists ip. split; [exact Hip|]. split; [|exact Hd].
    rewrite load_lines_filter in Hip. cbn [fst] in Hip.
    now apply filter_In in Hip.
  - intros e Hr. rewrite (run_unreadable _ _ Hr). cbn [snd]. unfold new_calls.
    cbn [calls]. rewrite <- (app_nil_r (calls st)) at 2. apply skipn_own.
Qed.

(** X13: when the list is readable, the operator asks for the details and
    [run] returns, the last thing printed is the report table.  It has
    three columns and three cells in every row, and its first column holds
    exactly the non-blank entries of the file, repeated addresses included:
    no entry is missing from the report and none is made up.  When no
    accepted address is repeated the table has one row per non-blank
    line. *)
Theorem report_table_lists_every_entry file (st : state T) :
  read_lines (DEVICE_LIST cfg) = Returns file ->
  print_details op = true ->
  fst (go st) = Returns tt ->
  exists t,
    last (console (snd (go st))) (Line "") = Rendered t
    /\ title t = "Configuration Change Report"
    /\ columns t = ["IP Address"; "Status"; "Error"]
    /\ Forall (fun row => length row = 3) (rows t)
    /\ (forall a, In a (map (hd "") (rows t)) <-> In a (entries file))
    /\ (NoDup (fst (load_lines ip_address file)) ->
        length (rows t) = length (entries file)).
Proof.
  intros Hr Hd Hret. rewrite (run_readable _ _ Hr) in *. rewrite Hd in *.
  destruct (updateConfiguration T cfg (fst (load_lines ip_address file))
              (username op) (password_answer op) (enable_pw op) (entered st))
    as [[status|e] st'] eqn:Hu; [|discriminate Hret].
  rewrite updateConfiguration_loop in Hu.
  destruct (printResults_prints status (snd (load_lines ip_address file))
              true st') as (lines & -> & _).
  cbn [snd console]. eexists. split; [rewrite !app_assoc; apply last_last|].
  cbn [title columns rows]. split; [reflexivity|]. split; [reflexivity|].
  split; [apply report_rows_width|].
  destruct (for_each_covers _ _ _ _ _ _ _ _ _ _ Hu) as (Hm & _ & _).
  cbn [errors success keys map] in Hm.
  assert (Hsplit : forall a, In a (entries file) <->
                     In a (fst (load_lines ip_address file))
                     \/ In a (snd (load_lines ip_address file))).
  { intros a. rewrite load_lines_filter. cbn [fst snd]. rewrite !filter_In.
    destruct (ip_address a); cbn [negb]; intuition discriminate. }
  split.
  - intros a. rewrite report_rows_addresses, !in_app_iff, Hsplit.
    specialize (Hm a). cbn in Hm. tauto.
  - intros ND. apply for_each_buckets in Hu; [|exact ND].
    cbn [errors success keys map app] in Hu. apply Permutation_length in Hu.
    rewrite <- (length_map (hd "") (report_rows _ _)), report_rows_addresses.
    rewrite app_assoc, length_app, (length_app (success status)).
    rewrite length_app in Hu.
    rewrite <- (length_filter_split ip_address (entries file)).
    rewrite load_lines_filter in *. cbn [fst snd] in *. lia.
Qed.

(** X14: [run] renders the report table once when it returns and the
    operator asked for the details, and never otherwise: not when the
    operator declines, not when the device list is unreadable, and not
    when an exception ends the run. *)
Theorem table_rendered_only_on_request (st : state T) :
  length (filter is_table (new_console st (snd (go st))))
  = match fst (go st) with
    | Returns _ => if print_details op then 1 else 0
    | Raises _ => 0
    end.
Proof.
  destruct (read_lines (DEVICE_LIST cfg)) as [file|e] eqn:Hr.
  - rewrite (run_readable _ _ Hr).
    destruct (entered_frame st) as (_ & _ & lines0 & Hc0 & Hn0).
    destruct (updateConfiguration T cfg (fst (load_lines ip_address file))
                (username op) (password_answer op) (enable_pw op) (entered st))
      as [r st'] eqn:Hu.
    rewrite updateConfiguration_loop in Hu.
    destruct (for_each_console _ _ _ _ _ _ _ _ _ _ Hu) as (con & Hc & Hn).
    cbn [add_task snd console] in Hc. rewrite Hc0 in Hc.
    destruct r as [status|e].
    + destruct (printResults_prints status (snd (load_lines ip_address file))
                  (print_details op) st') as (lines & -> & Hl).
      cbn [fst snd]. unfold new_console. cbn [console].
      rewrite Hc, <- !app_assoc, skipn_own, !filter_app, Hn0, Hn, Hl.
      now destruct (print_details op).
    + cbn [fst snd]. unfold new_console.
      rewrite Hc, <- !app_assoc, skipn_own, !filter_app, Hn0, Hn. reflexivity.
  - rewrite (run_unreadable _ _ Hr). cbn [fst snd]. unfold new_console.
    cbn [console]. now rewrite skipn_own.
Qed.

End Run.

(** ** The script on sample devices *)

(** The three scenarios of the design: two good addresses and a malformed
    one, the second device refusing the registration; an empty list; an
    address that fails authentication. *)
Example scenario_mixed_list :
  let T := scripted refuses_registration in
  fst (load_lines dotted_quad device_file) = ["10.0.0.1"; "10.0.0.2"]
  /\ snd (load_lines dotted_quad device_file) = ["bad-addr"]
  /\ fst (updateConfiguration T shipped ["10.0.0.1"; "10.0.0.2"]
            "admin" "cisco" None (initial T 0))
     = Returns {| errors := [("10.0.0.2", "registration failed")];
                  success := ["10.0.0.1"] |}.
Proof. vm_compute. repeat split. Qed.

Example scenario_empty_list :
  let T := scripted healthy in
  let end_state := snd (updateConfiguration T shipped [] "admin" "cisco" None
                          (initial T 0)) in
  load_lines dotted_quad [] = ([], [])
  /\ fst (updateConfiguration T shipped [] "admin" "cisco" None (initial T 0))
     = Returns empty_status
  /\ calls end_state = [].
Proof. vm_compute. repeat split. Qed.

Example scenario_authentication_failure :
  let T := scripted (turns_down (ScrapliAuthenticationFailed "authentication failed")) in
  fst (updateConfiguration T shipped ["10.0.0.1"] "admin" "cisco" None
         (initial T 0))
  = Returns {| errors := [("10.0.0.1", "authentication failed")];
               success := [] |}.
Proof. vm_compute. reflexivity. Qed.

(** An address listed twice and served differently on the two visits is
    under both keys of [status]. *)
Example twice_listed_in_both_buckets :
  let T := scripted second_visit_fails in
  fst (updateConfiguration T shipped (fst (load_lines dotted_quad twice_listed))
         "admin" "cisco" None (initial T 0))
  = Returns {| errors := [("10.0.0.1", "already registered")];
               success := ["10.0.0.1"] |}.
Proof. vm_compute. reflexivity. Qed.

(** An authentication error with an empty message is not taken for an
    error: the body goes on without a driver and the run ends there. *)
Example empty_message_ends_run :
  let T := scripted (turns_down (ScrapliAuthenticationFailed "")) in
  fst (updateConfiguration T shipped ["10.0.0.1"; "10.0.0.2"] "admin" "cisco"
         None (initial T 0))
  = Raises (AttributeError "'NoneType' object has no attribute 'send_configs'").
Proof. vm_compute. reflexivity. Qed.

(** Every stage passes and [close] raises: the run ends there, with one
    [open] and one [close] made and the second address not visited. *)
Example close_exception_ends_run :
  let T := scripted (gone_at_close healthy) in
  let run := updateConfiguration T shipped ["10.0.0.1"; "10.0.0.2"]
               "admin" "cisco" None (initial T 0) in
  fst run = Raises (OtherError "OSError" "[Errno 5] Input/output error")
  /\ filter is_open (calls (snd run)) = [Open (admin_driver "10.0.0.1")]
  /\ filter is_close (calls (snd run)) = [Close (admin_driver "10.0.0.1")].
Proof. vm_compute. repeat split. Qed.

(** *** The session *)

Lemma session_closed_once_unless_stage_raises_witness :
  let T := scripted refuses_registration in
  do_open T (admin_driver "10.0.0.2") (world (initial T 0)) = (Returns tt, 1)
  /\ length (filter is_close
               (new_calls (initial T 0)
                  (snd (process_device T shipped "admin" "cisco" None
                          "10.0.0.2" empty_status (initial T 0))))) = 1.
Proof.
  intros T. split; [reflexivity|].
  destruct (session_closed_once_unless_stage_raises T shipped "admin" "cisco"
              None "10.0.0.2" empty_status (initial T 0) 1 eq_refl)
    as (Hret & _).
  destruct (Hret (set_error "10.0.0.2" "registration failed" empty_status)
              eq_refl) as (ks & _ & _ & Hlen).
  exact Hlen.
Defined.

(** C1 as stated fails: the session opens, the first batch times out, the
    exception leaves the body and [close] has not been called. *)
Lemma stage_exception_leaves_session_open : ~ closed_once_on_every_exit_path.
Proof.
  intros H.
  specialize (H (scripted times_out_in_stage) shipped "admin" "cisco" None
                "10.0.0.1" empty_status
                (initial (scripted times_out_in_stage) 0) 1 eq_refl).
  vm_compute in H. discriminate H.
Qed.

(** *** The report *)

Lemma distinct_addresses_one_bucket_each_witness :
  let T := scripted refuses_registration in
  let status := {| errors := [("10.0.0.2", "registration failed")];
                   success := ["10.0.0.1"] |} in
  NoDup (fst (load_lines dotted_quad device_file))
  /\ fst (updateConfiguration T shipped (fst (load_lines dotted_quad device_file))
            "admin" "cisco" None (initial T 0)) = Returns status
  /\ length (success status) + length (errors status)
     + length (snd (load_lines dotted_quad device_file))
     = length (entries device_file).
Proof.
  intros T status.
  assert (ND : NoDup (fst (load_lines dotted_quad device_file))).
  { vm_compute. repeat constructor; cbn; intuition discriminate. }
  split; [exact ND|]. split; [vm_compute; reflexivity|].
  destruct (updateConfiguration T shipped (fst (load_lines dotted_quad device_file))
              "admin" "cisco" None (initial T 0)) as [r st'] eqn:Hrun.
  assert (Hr : r = Returns status).
  { apply (f_equal fst) in Hrun. vm_compute in Hrun. now symmetry. }
  subst r.
  exact (proj1 (distinct_addresses_one_bucket_each dotted_quad T shipped
                  "admin" "cisco" None device_file (initial T 0) status st'
                  ND Hrun)).
Defined.

(** C2 as stated fails: an address listed twice that fails both times is
    one key of [errors], and the sizes add up to one for two lines. *)
Lemma repeated_address_breaks_buckets : ~ one_bucket_per_line.
Proof.
  intros H.
  pose (T := scripted (turns_down (ScrapliAuthenticationFailed "authentication failed"))).
  destruct (updateConfiguration T shipped (fst (load_lines dotted_quad twice_listed))
              "admin" "cisco" None (initial T 0)) as [r st'] eqn:Hrun.
  assert (Hr : r = Returns {| errors := [("10.0.0.1", "authentication failed")];
                              success := [] |}).
  { apply (f_equal fst) in Hrun. vm_compute in Hrun. now symmetry. }
  subst r.
  destruct (H dotted_quad T shipped "admin" "cisco" None twice_listed
              (initial T 0) _ st' Hrun) as [Hcount _].
  vm_compute in Hcount. discriminate Hcount.
Qed.

(** *** Errors at the boundary of the loop *)

Lemma caught_errors_become_report_entries_witness :
  let T := scripted (turns_down (ScrapliAuthenticationFailed "authentication failed")) in
  do_open T (admin_driver "10.0.0.1") (world (initial T 0))
  = (Raises (ScrapliAuthenticationFailed "authentication failed"), 1)
  /\ "authentication failed" <> ""
  /\ exists st',
       process_device T shipped "admin" "cisco" None "10.0.0.1" empty_status
         (initial T 0)
       = (Returns (set_error "10.0.0.1" "authentication failed" empty_status), st').
Proof.
  intros T.
  assert (Hm : "authentication failed" <> "") by discriminate.
  split; [reflexivity|]. split; [exact Hm|].
  destruct (proj1 (caught_errors_become_report_entries T shipped "admin" "cisco"
                     None "10.0.0.1" ["10.0.0.2"] empty_status (initial T 0))
              (ScrapliAuthenticationFailed "authentication failed")
              "authentication failed" 1 eq_refl (or_introl eq_refl) Hm)
    as (st' & Hb & _).
  exists st'. exact Hb.
Defined.

(** C3 as stated fails: the device list is read, the one device cannot be
    reached, and the error of the transport leaves [run]. *)
Lemma connection_error_escapes_run : ~ only_startup_error_escapes.
Proof.
  intros H.
  apply (H dotted_quad (scripted unreachable) shipped
           (on_disk [line "10.0.0.1"; line "10.0.0.2"]) operator
           (initial (scripted unreachable) 0)
           [line "10.0.0.1"; line "10.0.0.2"] eq_refl
           (OtherError "ScrapliConnectionError"
              "encountered EOF reading from transport")).
  vm_compute. reflexivity.
Qed.

(** *** Fail-fast stages *)

Lemma failing_stage_halts_device_witness :
  let T := scripted rejects_profile in
  let c := admin_driver "10.0.0.1" in
  let r := {| failed := true; result := "% Invalid input detected" |} in
  do_open T c (world (initial T 0)) = (Returns tt, 1)
  /\ nth_error (stages shipped) 1 = Some ApplyNewProfile
  /\ all_pass T shipped c (firstn 1 (stages shipped)) 1 = Some 1
  /\ stage_answer T shipped c ApplyNewProfile 1 = (Returns r, 1)
  /\ failed r = true
  /\ exists st',
       process_device T shipped "admin" "cisco" None "10.0.0.1" empty_status
         (initial T 0)
       = (Returns (set_error "10.0.0.1" "% Invalid input detected" empty_status), st')
       /\ calls st' = [Open c; Send_configs c (REMOVE_SSM_CONFIG shipped);
                       Send_configs c (SSM_CONFIG shipped); Close c].
Proof.
  intros T c r. repeat (split; [reflexivity|]).
  destruct (failing_stage_halts_device T shipped "admin" "cisco" None
              "10.0.0.1" ["10.0.0.2"] empty_status (initial T 0)
              1 1 ApplyNewProfile 1 1 r eq_refl eq_refl eq_refl eq_refl eq_refl)
    as (st' & Hb & Hc & _).
  exists st'. split; [exact Hb|exact Hc].
Defined.

(** C4 as stated fails: the profile batch is rejected, the connection is
    gone when the session is closed, and the exception of [close] leaves
    the body: nothing is recorded and the next address is not visited. *)
Lemma failed_stage_then_close_raises : ~ failing_stage_moves_on.
Proof.
  intros H.
  specialize (H (scripted (gone_at_close rejects_profile)) shipped
                "admin" "cisco" None "10.0.0.1" empty_status
                (initial (scripted (gone_at_close rejects_profile)) 0)
                1 1 ApplyNewProfile 1 1
                {| failed := true; result := "% Invalid input detected" |}
                eq_refl eq_refl eq_refl eq_refl eq_refl).
  vm_compute in H. discriminate H.
Qed.

(** *** A session that does not open *)

Lemma failed_open_attempts_no_stage_witness :
  let T := scripted (turns_down (ScrapliPrivilegeError "failed to escalate")) in
  do_open T (admin_driver "10.0.0.1") (world (initial T 0))
  = (Raises (ScrapliPrivilegeError "failed to escalate"), 1)
  /\ calls (snd (process_device T shipped "admin" "cisco" None "10.0.0.1"
                   empty_status (initial T 0)))
     = [Open (admin_driver "10.0.0.1")].
Proof.
  intros T. split; [reflexivity|].
  exact (proj1 (failed_open_attempts_no_stage T shipped "admin" "cisco" None
                  "10.0.0.1" empty_status (initial T 0)
                  (ScrapliPrivilegeError "failed to escalate") 1 eq_refl)).
Defined.

(** C5 as stated fails: an authentication failure and a privilege failure
    that carry the same message give the caller of [connectSSH] the same
    value. *)
Lemma failure_kinds_share_a_result : ~ failure_kinds_told_apart.
Proof.
  intros H.
  apply (H (scripted (turns_down (ScrapliAuthenticationFailed "Permission denied")))
           (scripted (turns_down (ScrapliPrivilegeError "Permission denied")))
           "10.0.0.1" "admin" "cisco" None
           (initial (scripted (turns_down (ScrapliAuthenticationFailed "Permission denied"))) 0)
           (initial (scripted (turns_down (ScrapliPrivilegeError "Permission denied"))) 0)
           "Permission denied" "Permission denied" eq_refl eq_refl).
  reflexivity.
Qed.

(** *** The device list *)

Lemma loadDeviceList_splits_in_order_witness :
  let T := scripted healthy in
  on_disk device_file (DEVICE_LIST shipped) = Returns device_file
  /\ exists st',
       loadDeviceList dotted_quad T shipped (on_disk device_file) (initial T 0)
       = (Returns (["10.0.0.1"; "10.0.0.2"], ["bad-addr"]), st').
Proof.
  intros T. split; [reflexivity|].
  exact (proj1 (loadDeviceList_splits_in_order dotted_quad T shipped
                  (on_disk device_file) device_file (initial T 0) eq_refl)).
Defined.

Lemma lines_are_trimmed_witness :
  all_space "  " = true /\ all_space nl = true
  /\ strip "10.0.0.1" = "10.0.0.1" /\ "10.0.0.1" <> ""
  /\ dotted_quad "10.0.0.1" = true
  /\ load_line dotted_quad ([], []) ("  " ++ "10.0.0.1" ++ nl)%string
     = ([] ++ ["10.0.0.1"], []).
Proof.
  assert (Hne : "10.0.0.1" <> "") by discriminate.
  repeat (split; [reflexivity|]). split; [exact Hne|]. split; [reflexivity|].
  exact (proj2 (proj2 (proj2 (lines_are_trimmed dotted_quad)))
           [] [] "  " "10.0.0.1" nl eq_refl eq_refl eq_refl Hne eq_refl).
Defined.

(** *** The optional stage *)

Lemma removal_stage_follows_toggle_witness :
  let T := scripted healthy in
  do_open T (admin_driver "10.0.0.1") (world (initial T 0)) = (Returns tt, 1)
  /\ (In (Send_configs (admin_driver "10.0.0.1") (REMOVE_SSM_CONFIG no_toggle))
         (new_calls (initial T 0)
            (snd (process_device T no_toggle "admin" "cisco" None "10.0.0.1"
                    empty_status (initial T 0))))
      <-> REMOVE_DEFAULT_PROFILE no_toggle = true).
Proof.
  intros T. split; [reflexivity|].
  exact (proj1 (removal_stage_follows_toggle T no_toggle "admin" "cisco" None
                  "10.0.0.1" empty_status (initial T 0) 1 eq_refl)).
Defined.

(** *** The options of the transport *)

Lemma open_uses_legacy_options_witness :
  let T := scripted healthy in
  let k := Open (admin_driver "10.0.0.2") in
  In k (new_calls (initial T 0)
          (snd (updateConfiguration T shipped ["10.0.0.1"; "10.0.0.2"]
                  "admin" "cisco" None (initial T 0))))
  /\ is_open k = true
  /\ exists ip, In ip ["10.0.0.1"; "10.0.0.2"]
                /\ k = Open (device_kwargs ip "admin" "cisco" None).
Proof.
  intros T k.
  assert (Hin : In k (new_calls (initial T 0)
                        (snd (updateConfiguration T shipped ["10.0.0.1"; "10.0.0.2"]
                                "admin" "cisco" None (initial T 0))))).
  { vm_compute. do 5 right. left. reflexivity. }
  split; [exact Hin|]. split; [reflexivity|].
  exact (proj2 (proj2 (open_uses_legacy_options T shipped "admin" "cisco" None))
           ["10.0.0.1"; "10.0.0.2"] (initial T 0) k Hin eq_refl).
Defined.

(** *** Success, the report and the table *)

Lemma success_iff_all_stages_pass_witness :
  let T := scripted healthy in
  do_open T (admin_driver "10.0.0.1") (world (initial T 0)) = (Returns tt, 1)
  /\ all_pass T shipped (admin_driver "10.0.0.1") (stages shipped) 1 = Some 1
  /\ fst (do_close T (admin_driver "10.0.0.1") 1) = Returns tt
  /\ fst (process_device T shipped "admin" "cisco" None "10.0.0.1" empty_status
            (initial T 0))
     = Returns (append_success "10.0.0.1" empty_status).
Proof.
  intros T. split; [reflexivity|]. split; [reflexivity|]. split; [reflexivity|].
  exact (proj1 (proj1 (success_iff_all_stages_pass T shipped "admin" "cisco" None
                         "10.0.0.1" empty_status (initial T 0) 1 eq_refl))
           (ex_intro _ 1 (conj eq_refl eq_refl))).
Defined.

Lemma every_address_recorded_witness :
  let T := scripted second_visit_fails in
  let status := {| errors := [("10.0.0.1", "already registered")];
                   success := ["10.0.0.1"] |} in
  fst (updateConfiguration T shipped ["10.0.0.1"; "10.0.0.1"] "admin" "cisco"
         None (initial T 0)) = Returns status
  /\ length (success status) + length (errors status) <= 2
  /\ NoDup (keys (errors status)).
Proof.
  intros T status. split; [vm_compute; reflexivity|].
  destruct (updateConfiguration T shipped ["10.0.0.1"; "10.0.0.1"] "admin" "cisco"
              None (initial T 0)) as [r st'] eqn:Hrun.
  assert (Hr : r = Returns status).
  { apply (f_equal fst) in Hrun. vm_compute in Hrun. now symmetry. }
  subst r.
  exact (proj2 (every_address_recorded T shipped "admin" "cisco" None
                  ["10.0.0.1"; "10.0.0.1"] (initial T 0) status st' Hrun)).
Defined.

Lemma failure_rows_read_by_key_witness :
  let T := scripted refuses_registration in
  let status := {| errors := [("10.0.0.2", "registration failed")];
                   success := ["10.0.0.1"] |} in
  fst (updateConfiguration T shipped ["10.0.0.1"; "10.0.0.2"] "admin" "cisco"
         None (initial T 0)) = Returns status
  /\ failure_rows_by_key (errors status)
     = map (fun error => Some [fst error; "[red]Failed"; snd error]) (errors status).
Proof.
  intros T status. split; [vm_compute; reflexivity|].
  destruct (updateConfiguration T shipped ["10.0.0.1"; "10.0.0.2"] "admin" "cisco"
              None (initial T 0)) as [r st'] eqn:Hrun.
  assert (Hr : r = Returns status).
  { apply (f_equal fst) in Hrun. vm_compute in Hrun. now symmetry. }
  subst r.
  exact (failure_rows_read_by_key T shipped "admin" "cisco" None
           ["10.0.0.1"; "10.0.0.2"] (initial T 0) status st' Hrun).
Defined.

Lemma device_changes_only_its_own_entry_witness :
  let T := scripted refuses_registration in
  let before := {| errors := [("10.0.0.9", "authentication failed")];
                   success := ["10.0.0.1"] |} in
  let after := set_error "10.0.0.2" "registration failed" before in
  fst (process_device T shipped "admin" "cisco" None "10.0.0.2" before
         (initial T 0)) = Returns after
  /\ dict_get "10.0.0.9" (errors after) = dict_get "10.0.0.9" (errors before).
Proof.
  intros T before after. split; [vm_compute; reflexivity|].
  destruct (process_device T shipped "admin" "cisco" None "10.0.0.2" before
              (initial T 0)) as [r st'] eqn:Hb.
  assert (Hr : r = Returns after).
  { apply (f_equal fst) in Hb. vm_compute in Hb. now symmetry. }
  subst r.
  assert (Hne : "10.0.0.9" <> "10.0.0.2") by discriminate.
  exact (proj1 (device_changes_only_its_own_entry T shipped "admin" "cisco" None
                  "10.0.0.2" before (initial T 0) after st' Hb)
           "10.0.0.9" Hne).
Defined.

Lemma stored_entries_are_trimmed_witness :
  In "bad-addr" (snd (load_lines dotted_quad device_file))
  /\ "bad-addr" <> "" /\ strip "bad-addr" = "bad-addr".
Proof.
  assert (Hin : In "bad-addr" (snd (load_lines dotted_quad device_file))).
  { vm_compute. left. reflexivity. }
  split; [exact Hin|].
  destruct (stored_entries_are_trimmed dotted_quad device_file "bad-addr"
              (or_intror Hin)) as (Hne & Hs & _).
  split; [exact Hne|exact Hs].
Defined.

Lemma report_table_lists_every_entry_witness :
  let T := scripted refuses_registration in
  on_disk device_file (DEVICE_LIST shipped) = Returns device_file
  /\ print_details operator = true
  /\ fst (run dotted_quad T shipped (on_disk device_file) operator (initial T 0))
     = Returns tt
  /\ exists t,
       last (console (snd (run dotted_quad T shipped (on_disk device_file)
                             operator (initial T 0)))) (Line "") = Rendered t
       /\ forall a, In a (map (hd "") (rows t)) <-> In a (entries device_file).
Proof.
  intros T.
  assert (Hret : fst (run dotted_quad T shipped (on_disk device_file) operator
                        (initial T 0)) = Returns tt) by (vm_compute; reflexivity).
  split; [reflexivity|]. split; [reflexivity|]. split; [exact Hret|].
  destruct (report_table_lists_every_entry dotted_quad T shipped
              (on_disk device_file) operator device_file (initial T 0)
              eq_refl eq_refl Hret) as (t & Hlast & _ & _ & _ & Hin & _).
  exists t. split; [exact Hlast|exact Hin].
Defined.

Lemma empty_message_ends_the_loop_witness :
  let T := scripted (turns_down (ScrapliPrivilegeError "")) in
  do_open T (admin_driver "10.0.0.1") (world (initial T 0))
  = (Raises (ScrapliPrivilegeError ""), 1)
  /\ fst (for_each T (process_device T shipped "admin" "cisco" None)
            ["10.0.0.1"; "10.0.0.2"] empty_status (initial T 0))
     = Raises (AttributeError "'NoneType' object has no attribute 'send_configs'").
Proof.
  intros T. split; [reflexivity|].
  exact (proj1 (proj2 (proj2 (empty_message_ends_the_loop T shipped "admin" "cisco"
                                None "10.0.0.1" ["10.0.0.2"] empty_status
                                (initial T 0) (ScrapliPrivilegeError "") 1
                                eq_refl (or_intror eq_refl))))).
Defined.
